(** * Pipefy client (powerlibs.contrib.clients.pipefy.client)

    A shallow embedding of [client.py]: the transport ([PipefyClient]),
    the lazily loaded [Pipe], [Phase] and [Card] objects, the
    [cached_property] slots and the [lru_cache] on [Pipe.get_phase], and the
    single [_field_cache] dictionary shared by label and id lookups.

    Python values that the code uses as dictionary keys or compares with
    [==] (field ids, labels, card ids, values) are [pyval]s: [None], an int
    or a str.  Python dicts are association lists with insertion order.
    Stateful code runs in a state-and-exception monad over a [world]; an
    exception keeps every state change made before it was raised. *)

From stdpp Require Import base list strings pretty.
From Stdlib Require Import ZArith Lia Ascii.

Open Scope Z_scope.

(** ** Python values *)

Inductive pyval :=
| PNone
| PInt (z : Z)
| PStr (s : string).

Definition pyval_eqb (a b : pyval) : bool :=
  match a, b with
  | PNone, PNone => true
  | PInt x, PInt y => Z.eqb x y
  | PStr x, PStr y => String.eqb x y
  | _, _ => false
  end.

(** [str.format] of a value, as used to build the endpoints. *)
Definition fmt (v : pyval) : string :=
  match v with
  | PNone => "None"
  | PInt z => pretty z
  | PStr s => s
  end.

(** ** Python dicts *)

Definition dict := list (pyval * pyval).

(** [k in d] *)
Definition dict_mem (k : pyval) (d : dict) : bool :=
  existsb (fun kv => pyval_eqb (fst kv) k) d.

(** [d.get(k)] as an option *)
Fixpoint dict_get (k : pyval) (d : dict) : option pyval :=
  match d with
  | [] => None
  | (k', v) :: d' => if pyval_eqb k' k then Some v else dict_get k d'
  end.

(** [d[k] = v]: an existing key keeps its position, a new key goes last. *)
Fixpoint dict_set (k v : pyval) (d : dict) : dict :=
  match d with
  | [] => [(k, v)]
  | (k', v') :: d' =>
      if pyval_eqb k' k then (k', v) :: d' else (k', v') :: dict_set k v d'
  end.

(** ** JSON documents of the Pipefy API *)

(** An entry of a phase's ['fields'] list. *)
Record field := mkField { f_id : pyval; f_label : pyval }.

(** [GET /phases/{id}.json]; ['cards'] is optional (card stubs, by id). *)
Record phase_json := mkPhaseJson {
  pd_id : pyval;
  pd_fields : list field;
  pd_cards : option (list pyval) }.

(** An entry of ['other_phase_details'][i]['field_values']. *)
Record hist_fv := mkHistFv { hfv_field_id : pyval; hfv_value : pyval }.

(** An entry of ['current_phase_detail']['field_values']. *)
Record cur_fv := mkCurFv { cfv_id : pyval; cfv_value : pyval }.

(** [GET /cards/{id}] and the response of [create_card.json]. *)
Record card_json := mkCardJson {
  cd_id : pyval;
  cd_other_phase_details : list (list hist_fv);
  cd_current_field_values : list cur_fv }.

(** [GET /pipes/{id}.json]: the ['phases'] list, by id. *)
Record pipe_json := mkPipeJson { pj_phases : list pyval }.

(** The body of a [create_card.json] POST:
    [{card: {title, field_values: [{field_id, value}, ...]}}]. *)
Record payload := mkPayload {
  p_title : pyval;
  p_field_values : list (pyval * pyval) }.

(** ** Transport *)

Inductive http_method := GET | POST | PATCH | PUT | DELETE.

Record request := mkRequest {
  rq_method : http_method;
  rq_url : string;
  rq_headers : list (string * string);
  rq_json : option payload }.

Inductive body :=
| BPipe (d : pipe_json)
| BPhase (d : phase_json)
| BCardList (ids : list pyval)
| BCard (d : card_json)
(** a body that is not a JSON document (an empty body, an HTML page) *)
| BOther.

Record response := mkResponse { rs_status : Z; rs_body : body }.

Inductive exc :=
| HTTPError (status : Z)
| KeyError (k : pyval)
| JSONDecodeError
(** a reference to an object that is not in the heap; Python references
    cannot dangle, so no state the code builds raises it *)
| Dangling.

Inductive res (A : Type) :=
| Ok (a : A)
| Exc (e : exc).
Arguments Ok {A} a.
Arguments Exc {A} e.

(** State-and-exception monad: an exception keeps the state built so far. *)
Definition ST (S A : Type) : Type := S -> S * res A.

Definition ret {S A} (a : A) : ST S A := fun s => (s, Ok a).
Definition bind {S A B} (m : ST S A) (f : A -> ST S B) : ST S B := fun s =>
  match m s with
  | (s', Ok a) => f a s'
  | (s', Exc e) => (s', Exc e)
  end.

Notation "'let!' x ':=' m 'in' k" := (bind m (fun x => k))
  (at level 200, x name, m at level 200, k at level 200).

Definition throw {S A} (e : exc) : ST S A := fun s => (s, Exc e).
Definition gets {S A} (f : S -> A) : ST S A := fun s => (s, Ok (f s)).
Definition modify {S} (f : S -> S) : ST S unit := fun s => (f s, Ok tt).
Definition lift_res {S A} (r : res A) : ST S A := fun s => (s, r).

(** [response.raise_for_status()] of requests: 4xx and 5xx raise. *)
Definition raise_for_status (status : Z) : bool :=
  (400 <=? status) && (status <? 600).

(** [response.json()] as [get_pipe] uses it: whatever JSON document the
    body holds, without looking at its shape. *)
Definition response_json (r : response) : res body :=
  match rs_body r with BOther => Exc JSONDecodeError | b => Ok b end.
(** [response.json()] where the code goes on to index the document as a
    phase, a list of card stubs or a card: the API's documents. *)
Definition json_phase (r : response) : res phase_json :=
  match rs_body r with BPhase d => Ok d | _ => Exc JSONDecodeError end.
Definition json_card_list (r : response) : res (list pyval) :=
  match rs_body r with BCardList l => Ok l | _ => Exc JSONDecodeError end.
Definition json_card (r : response) : res card_json :=
  match rs_body r with BCard d => Ok d | _ => Exc JSONDecodeError end.

(** [endpoint.lstrip('/')] *)
Fixpoint lstrip_slash (s : string) : string :=
  match s with
  | String "/"%char s' => lstrip_slash s'
  | _ => s
  end.

Definition ends_with_slash (s : string) : bool :=
  match String.get (String.length s - 1) s with
  | Some "/"%char => true
  | _ => false
  end.

(** [os.path.join(a, b)] for a relative [b]. *)
Definition path_join (a b : string) : string :=
  if String.eqb a "" then b
  else if ends_with_slash a then a +:+ b
  else a +:+ "/" +:+ b.

(** ** [PipefyClient] *)

Section Client.

(** The remote API: the response it gives to each request. *)
Variable srv : request -> response.
Variables (email token base_url : string).

(** [PipefyClient.headers] *)
Definition headers : list (string * string) :=
  [("X-User-Email", email); ("X-User-Token", token)].

(** [PipefyClient.get_url] *)
Definition get_url (endpoint : string) : string :=
  path_join base_url (lstrip_slash endpoint).

(** [PipefyClient.http_request]: the state is the log of requests sent. *)
Definition http_request (m : http_method) (endpoint : string)
    (json : option payload) : ST (list request) response :=
  fun log =>
    let rq := mkRequest m (get_url endpoint) headers json in
    let rs := srv rq in
    let log' := log ++ [rq] in
    if raise_for_status (rs_status rs) then (log', Exc (HTTPError (rs_status rs)))
    else (log', Ok rs).

Definition client_get (endpoint : string) := http_request GET endpoint None.
Definition client_post (endpoint : string) (data : payload) :=
  http_request POST endpoint (Some data).
Definition client_patch (endpoint : string) (data : payload) :=
  http_request PATCH endpoint (Some data).
Definition client_put (endpoint : string) (data : payload) :=
  http_request PUT endpoint (Some data).
Definition client_delete (endpoint : string) := http_request DELETE endpoint None.

Definition pipe_endpoint (pipe_id : pyval) : string :=
  "/pipes/" +:+ fmt pipe_id +:+ ".json".

(** The Pipe object built by [get_pipe]: its [id] and [data] (the decoded
    JSON document, unchecked). *)
Record pipe := mkPipe { pipe_id_of : pyval; pipe_data_of : body }.

(** [PipefyClient.get_pipe] *)
Definition get_pipe (pipe_id : pyval) : ST (list request) pipe :=
  let! pipe_data := client_get (pipe_endpoint pipe_id) in
  let! d := lift_res (response_json pipe_data) in
  ret (mkPipe pipe_id d).

(** ** The object graph of one [Pipe] *)

(** A [Phase]: [identifier], [data] (mutable: [cards] may be stored into
    it) and the [cached_property] slot of [cards] (card references). *)
Record phase_obj := mkPhaseObj {
  po_identifier : pyval;
  po_data : phase_json;
  po_cards : option (list nat) }.

(** A [Card]: [identifier], [data] and the slot of [values]. *)
Record card_obj := mkCardObj {
  co_identifier : pyval;
  co_data : card_json;
  co_values : option dict }.

(** The request log, the Pipe's [_field_cache], its [phases] and [cards]
    slots, the [lru_cache] of [get_phase] (most recent first, keyed by
    [phase_id]), and the Phase and Card objects, referenced by index. *)
Record world := mkWorld {
  w_log : list request;
  w_cache : dict;
  w_phases : option (list nat);
  w_cards : option (list nat);
  w_lru : list (pyval * nat);
  w_phase_heap : list phase_obj;
  w_card_heap : list card_obj }.

Definition set_log l w :=
  mkWorld l (w_cache w) (w_phases w) (w_cards w) (w_lru w) (w_phase_heap w) (w_card_heap w).
Definition set_cache c w :=
  mkWorld (w_log w) c (w_phases w) (w_cards w) (w_lru w) (w_phase_heap w) (w_card_heap w).
Definition set_phases p w :=
  mkWorld (w_log w) (w_cache w) p (w_cards w) (w_lru w) (w_phase_heap w) (w_card_heap w).
Definition set_cards p w :=
  mkWorld (w_log w) (w_cache w) (w_phases w) p (w_lru w) (w_phase_heap w) (w_card_heap w).
Definition set_lru l w :=
  mkWorld (w_log w) (w_cache w) (w_phases w) (w_cards w) l (w_phase_heap w) (w_card_heap w).
Definition set_phase_heap h w :=
  mkWorld (w_log w) (w_cache w) (w_phases w) (w_cards w) (w_lru w) h (w_card_heap w).
Definition set_card_heap h w :=
  mkWorld (w_log w) (w_cache w) (w_phases w) (w_cards w) (w_lru w) (w_phase_heap w) h.

(** A transport call from a method of the object graph. *)
Definition lift_log {A} (m : ST (list request) A) : ST world A :=
  fun w => let '(l, r) := m (w_log w) in (set_log l w, r).

Definition alloc_phase (po : phase_obj) : ST world nat :=
  fun w => let r := length (w_phase_heap w) in
           (set_phase_heap (w_phase_heap w ++ [po]) w, Ok r).
Definition alloc_card (co : card_obj) : ST world nat :=
  fun w => let r := length (w_card_heap w) in
           (set_card_heap (w_card_heap w ++ [co]) w, Ok r).

Definition read_phase (r : nat) : ST world phase_obj :=
  fun w => match w_phase_heap w !! r with
           | Some po => (w, Ok po)
           | None => (w, Exc Dangling)
           end.
Definition read_card (r : nat) : ST world card_obj :=
  fun w => match w_card_heap w !! r with
           | Some co => (w, Ok co)
           | None => (w, Exc Dangling)
           end.

Definition write_phase (r : nat) (po : phase_obj) : ST world unit :=
  modify (fun w => set_phase_heap (<[r := po]> (w_phase_heap w)) w).
Definition write_card (r : nat) (co : card_obj) : ST world unit :=
  modify (fun w => set_card_heap (<[r := co]> (w_card_heap w)) w).

(** [functools.lru_cache(128)]: a hit moves the entry to the front, a new
    entry goes in front and the least recently used one beyond 128 goes. *)
Definition lru_maxsize : nat := 128.

Fixpoint lru_find (k : pyval) (l : list (pyval * nat)) : option nat :=
  match l with
  | [] => None
  | (k', r) :: l' => if pyval_eqb k' k then Some r else lru_find k l'
  end.

Definition lru_touch (k : pyval) (r : nat) (l : list (pyval * nat)) :=
  (k, r) :: filter (fun kr => negb (pyval_eqb (fst kr) k)) l.

Definition lru_add (k : pyval) (r : nat) (l : list (pyval * nat)) :=
  take lru_maxsize ((k, r) :: l).

(** [d[k]] *)
Definition dict_getitem (k : pyval) (d : dict) : res pyval :=
  match dict_get k d with
  | Some v => Ok v
  | None => Exc (KeyError k)
  end.

(** [self._field_cache[k]] *)
Definition cache_getitem (k : pyval) : ST world pyval :=
  fun w => (w, dict_getitem k (w_cache w)).

(** ** [Pipe], [Phase] and [Card] *)

Section PipeOps.

(** [Pipe.id] and [Pipe.data] *)
Variable pipe_id : pyval.
Variable pipe_data : pipe_json.

Definition phase_endpoint (phase_id : pyval) : string :=
  "/phases/" +:+ fmt phase_id +:+ ".json".
Definition phase_cards_endpoint (phase_id : pyval) : string :=
  "/phases/" +:+ fmt phase_id +:+ "/cards.json".
Definition card_endpoint (card_id : pyval) : string :=
  "/cards/" +:+ fmt card_id.
Definition create_card_endpoint : string :=
  "/pipes/" +:+ fmt pipe_id +:+ "/create_card.json".

(** [Pipe.get_phase], under its [lru_cache]. *)
Definition get_phase (phase_id : pyval) : ST world nat :=
  let! l := gets w_lru in
  match lru_find phase_id l with
  | Some r => let! _ := modify (set_lru (lru_touch phase_id r l)) in ret r
  | None =>
      let! response := lift_log (client_get (phase_endpoint phase_id)) in
      let! d := lift_res (json_phase response) in
      let! r := alloc_phase (mkPhaseObj phase_id d None) in
      let! _ := modify (fun w => set_lru (lru_add phase_id r (w_lru w)) w) in
      ret r
  end.

(** [[self.get_phase(x['id']) for x in self.data['phases']]] *)
Fixpoint get_phases (ids : list pyval) : ST world (list nat) :=
  match ids with
  | [] => ret []
  | x :: ids' => let! r := get_phase x in let! rs := get_phases ids' in ret (r :: rs)
  end.

(** [Pipe.phases] ([cached_property]) *)
Definition phases : ST world (list nat) :=
  let! c := gets w_phases in
  match c with
  | Some rs => ret rs
  | None =>
      let! rs := get_phases (pj_phases pipe_data) in
      let! _ := modify (set_phases (Some rs)) in
      ret rs
  end.

(** The inner loop of both lookups over one phase's ['fields']: both cache
    directions are written, then the loop returns if [is_hit] holds. *)
Fixpoint scan_fields (is_hit : field -> bool) (fs : list field) (c : dict)
    : dict * bool :=
  match fs with
  | [] => (c, false)
  | field_data :: fs' =>
      let c1 := dict_set (f_label field_data) (f_id field_data) c in
      let c2 := dict_set (f_id field_data) (f_label field_data) c1 in
      if is_hit field_data then (c2, true) else scan_fields is_hit fs' c2
  end.

(** The outer loop [for phase in self.phases]. *)
Fixpoint scan_phases (is_hit : field -> bool) (ps : list nat) : ST world bool :=
  match ps with
  | [] => ret false
  | r :: ps' =>
      let! phase := read_phase r in
      let! c := gets w_cache in
      let '(c', found) := scan_fields is_hit (pd_fields (po_data phase)) c in
      let! _ := modify (set_cache c') in
      if found then ret true else scan_phases is_hit ps'
  end.

(** [Pipe.get_field_id_by_label]; falling off the loop returns [None]. *)
Definition get_field_id_by_label (label : pyval) : ST world pyval :=
  let! c := gets w_cache in
  if dict_mem label c then cache_getitem label
  else
    let! ps := phases in
    let! found := scan_phases (fun field_data => pyval_eqb (f_label field_data) label) ps in
    if found then cache_getitem label else ret PNone.

(** [Pipe.get_field_label_by_id] *)
Definition get_field_label_by_id (id : pyval) : ST world pyval :=
  let! c := gets w_cache in
  if dict_mem id c then cache_getitem id
  else
    let! ps := phases in
    let! found := scan_phases (fun field_data => pyval_eqb (f_id field_data) id) ps in
    if found then cache_getitem id else ret PNone.

(** The loop of [Phase.cards] fetching each card by id. *)
Fixpoint fetch_cards (stubs : list pyval) : ST world (list nat) :=
  match stubs with
  | [] => ret []
  | card_id :: stubs' =>
      let! response := lift_log (client_get (card_endpoint card_id)) in
      let! d := lift_res (json_card response) in
      let! r := alloc_card (mkCardObj card_id d None) in
      let! rs := fetch_cards stubs' in
      ret (r :: rs)
  end.

Definition phase_set_cards_data (l : list pyval) (po : phase_obj) : phase_obj :=
  mkPhaseObj (po_identifier po)
    (mkPhaseJson (pd_id (po_data po)) (pd_fields (po_data po)) (Some l))
    (po_cards po).

Definition phase_set_cards_slot (cs : list nat) (po : phase_obj) : phase_obj :=
  mkPhaseObj (po_identifier po) (po_data po) (Some cs).

(** [Phase.cards] ([cached_property]) *)
Definition phase_cards (r : nat) : ST world (list nat) :=
  let! self := read_phase r in
  match po_cards self with
  | Some cs => ret cs
  | None =>
      let! _ :=
        match pd_cards (po_data self) with
        | Some _ => ret tt
        | None =>
            let! response :=
              lift_log (client_get (phase_cards_endpoint (pd_id (po_data self)))) in
            let! l := lift_res (json_card_list response) in
            let! self' := read_phase r in
            write_phase r (phase_set_cards_data l self')
        end in
      let! self' := read_phase r in
      let! stubs := lift_res (match pd_cards (po_data self') with
                        | Some l => Ok l
                        | None => Exc (KeyError (PStr "cards"))
                        end) in
      let! cards := fetch_cards stubs in
      let! self'' := read_phase r in
      let! _ := write_phase r (phase_set_cards_slot cards self'') in
      ret cards
  end.

(** the loop of [Pipe.cards] *)
Fixpoint collect_cards (ps : list nat) : ST world (list nat) :=
  match ps with
  | [] => ret []
  | p :: ps' =>
      let! cs := phase_cards p in let! rest := collect_cards ps' in ret (cs ++ rest)
  end.

(** [Pipe.cards] ([cached_property]) *)
Definition pipe_cards : ST world (list nat) :=
  let! c := gets w_cards in
  match c with
  | Some cs => ret cs
  | None =>
      let! ps := phases in
      let! cards := collect_cards ps in
      let! _ := modify (set_cards (Some cards)) in
      ret cards
  end.

(** The loops of [Card.values]. *)
Fixpoint values_hist (fvs : list hist_fv) (the_values : dict) : ST world dict :=
  match fvs with
  | [] => ret the_values
  | field_value :: fvs' =>
      let! label := get_field_label_by_id (hfv_field_id field_value) in
      values_hist fvs' (dict_set label (hfv_value field_value) the_values)
  end.

Fixpoint values_details (pds : list (list hist_fv)) (the_values : dict)
    : ST world dict :=
  match pds with
  | [] => ret the_values
  | phase_details :: pds' =>
      let! d := values_hist phase_details the_values in
      values_details pds' d
  end.

Fixpoint values_current (fvs : list cur_fv) (the_values : dict) : ST world dict :=
  match fvs with
  | [] => ret the_values
  | field_value :: fvs' =>
      let! label := get_field_label_by_id (cfv_id field_value) in
      values_current fvs' (dict_set label (cfv_value field_value) the_values)
  end.

(** [Card.values] ([cached_property]) *)
Definition card_values (r : nat) : ST world dict :=
  let! self := read_card r in
  match co_values self with
  | Some v => ret v
  | None =>
      let! d1 := values_details (cd_other_phase_details (co_data self)) [] in
      let! the_values := values_current (cd_current_field_values (co_data self)) d1 in
      let! self' := read_card r in
      let! _ := write_card r (mkCardObj (co_identifier self') (co_data self') (Some the_values)) in
      ret the_values
  end.

(** The loop of [Pipe.create_card] over [values.items()]. *)
Fixpoint build_field_values (items : list (pyval * pyval))
    : ST world (list (pyval * pyval)) :=
  match items with
  | [] => ret []
  | (key, value) :: items' =>
      let! field_id := get_field_id_by_label key in
      let! rest := build_field_values items' in
      ret ((field_id, value) :: rest)
  end.

(** [Pipe.create_card] *)
Definition create_card (card_title : pyval) (values : dict) : ST world nat :=
  let! field_values := build_field_values values in
  let! response := lift_log (client_post create_card_endpoint
                         (mkPayload card_title field_values)) in
  let! response_data := lift_res (json_card response) in
  alloc_card (mkCardObj (cd_id response_data) response_data None).

End PipeOps.
End Client.

(** ** Views of the object graph used in the statements *)

(** The data of the phases [rs], read from the heap. *)
Fixpoint read_datas (h : list phase_obj) (rs : list nat) : option (list phase_json) :=
  match rs with
  | [] => Some []
  | r :: rs' =>
      match h !! r, read_datas h rs' with
      | Some po, Some ds => Some (po_data po :: ds)
      | _, _ => None
      end
  end.

(** [pipe.phases] is loaded, and holds the phases with data [ds]. *)
Definition loaded (w : world) (ds : list phase_json) : Prop :=
  exists rs, w_phases w = Some rs /\ read_datas (w_phase_heap w) rs = Some ds.

(** Every field of every phase, in the order the lookups visit them. *)
Definition fields_of (ds : list phase_json) : list field :=
  concat (map pd_fields ds).

Definition is_label (fs : list field) (k : pyval) : bool :=
  existsb (fun f => pyval_eqb (f_label f) k) fs.
Definition is_id (fs : list field) (k : pyval) : bool :=
  existsb (fun f => pyval_eqb (f_id f) k) fs.

(** Fields with the same id have the same label. *)
Definition uniq_ids (fs : list field) : bool :=
  forallb (fun f => forallb (fun g =>
    negb (pyval_eqb (f_id f) (f_id g)) || pyval_eqb (f_label f) (f_label g)) fs) fs.

(** Fields with the same label have the same id. *)
Definition uniq_labels (fs : list field) : bool :=
  forallb (fun f => forallb (fun g =>
    negb (pyval_eqb (f_label f) (f_label g)) || pyval_eqb (f_id f) (f_id g)) fs) fs.

(** No label of a field is the id of a field. *)
Definition disjoint (fs : list field) : bool :=
  forallb (fun f => negb (is_id fs (f_label f))) fs.

(** Every binding of the cache is [label -> id] or [id -> label] of a
    field: the bindings [get_field_*] write (see [scan_fields_cache_ok]). *)
Definition cache_ok (fs : list field) (c : dict) : bool :=
  forallb (fun kv => existsb (fun f =>
    (pyval_eqb (f_label f) (fst kv) && pyval_eqb (f_id f) (snd kv)) ||
    (pyval_eqb (f_id f) (fst kv) && pyval_eqb (f_label f) (snd kv))) fs) c.

(** The id a label names in [fs], [None] when there is none. *)
Definition resolve_label (fs : list field) (k : pyval) : pyval :=
  match find (fun f => pyval_eqb (f_label f) k) fs with
  | Some f => f_id f
  | None => PNone
  end.

(** The label an id names in [fs], [None] when there is none. *)
Definition resolve_id (fs : list field) (k : pyval) : pyval :=
  match find (fun f => pyval_eqb (f_id f) k) fs with
  | Some f => f_label f
  | None => PNone
  end.

(** Both cache writes of every field of [fs], in order (a full scan). *)
Definition write_all (fs : list field) (c : dict) : dict :=
  fold_left (fun c f => dict_set (f_id f) (f_label f) (dict_set (f_label f) (f_id f) c))
    fs c.

(** A lookup of [k] on a cache [c] with the fields [fs]. *)
Definition lookup_pure (is_hit : field -> bool) (k : pyval) (fs : list field)
    (c : dict) : dict * res pyval :=
  if dict_mem k c then (c, dict_getitem k c)
  else let '(c', found) := scan_fields is_hit fs c in
       if found then (c', dict_getitem k c') else (c', Ok PNone).

(** [d[k] = v] for each pair, in order. *)
Definition dict_set_all (l : list (pyval * pyval)) (d : dict) : dict :=
  fold_left (fun d kv => dict_set (fst kv) (snd kv) d) l d.

(** The value of the last pair whose key satisfies [p]. *)
Fixpoint last_val_by (p : pyval -> bool) (l : list (pyval * pyval)) : option pyval :=
  match l with
  | [] => None
  | (k, v) :: l' =>
      match last_val_by p l' with
      | Some v' => Some v'
      | None => if p k then Some v else None
      end
  end.

(** The [(field id, value)] pairs a card's [values] visits, in order. *)
Definition card_pairs (d : card_json) : list (pyval * pyval) :=
  map (fun fv => (hfv_field_id fv, hfv_value fv)) (concat (cd_other_phase_details d)) ++
  map (fun fv => (cfv_id fv, cfv_value fv)) (cd_current_field_values d).

Definition resolve_pairs (fs : list field) (l : list (pyval * pyval)) :=
  map (fun kv => (resolve_id fs (fst kv), snd kv)) l.

(** Requests in a log for a given URL. *)
Definition count_url (url : string) (log : list request) : nat :=
  length (filter (fun rq => String.eqb (rq_url rq) url) log).

(** The cache writes of a full scan of [fs], in order: [label -> id],
    then [id -> label], for each field. *)
Definition cache_writes (fs : list field) : list (pyval * pyval) :=
  concat (map (fun f => [(f_label f, f_id f); (f_id f, f_label f)]) fs).

(** Every key of [c] is a key of [c']. *)
Definition cache_sub (c c' : dict) : Prop :=
  forall k, dict_mem k c = true -> dict_mem k c' = true.

(** Running [m] keeps every key of the field cache, whatever its outcome. *)
Definition grows {A} (m : ST world A) : Prop :=
  forall w w' r, m w = (w', r) -> cache_sub (w_cache w) (w_cache w').

(** Running [m] only appends requests to the log, each satisfying [P],
    whatever its outcome. *)
Definition sends (P : request -> Prop) {A} (m : ST world A) : Prop :=
  forall w w' r, m w = (w', r) -> exists new, w_log w' = w_log w ++ new /\ Forall P new.

(** Every entry [(phase_id, r)] of the [lru_cache] of [get_phase] refers
    to a Phase whose [identifier] is [phase_id]. *)
Definition lru_ok (w : world) : Prop :=
  forall x r, In (x, r) (w_lru w) -> option_map po_identifier (w_phase_heap w !! r) = Some x.

(** The GET request [client.get(endpoint)] sends. *)
Definition get_request (email token base_url endpoint : string) : request :=
  mkRequest GET (get_url base_url endpoint) (headers email token) None.

(** The [identifier]s of the Cards [cs] in the heap of [w]. *)
Definition card_ids (w : world) (cs : list nat) : list (option pyval) :=
  map (fun c => option_map co_identifier (w_card_heap w !! c)) cs.

(** The ids listed in [data['cards']] of the Phase [p]. *)
Definition phase_card_ids (w : world) (p : nat) : list (option pyval) :=
  match w_phase_heap w !! p with
  | Some po => match pd_cards (po_data po) with Some l => map Some l | None => [] end
  | None => []
  end.

(** Every Phase whose [cards] slot is filled holds the Cards listed in its
    [data['cards']], in order. *)
Definition cards_ok (w : world) : Prop :=
  forall r po cs, w_phase_heap w !! r = Some po -> po_cards po = Some cs ->
    exists l, pd_cards (po_data po) = Some l /\ card_ids w cs = map Some l.

(** Running [m] changes no Phase other than the one at [r] and only
    appends Cards. *)
Definition phase_frame (r : nat) {A} (m : ST world A) : Prop :=
  forall w w' x, m w = (w', x) ->
    (forall r0, r0 <> r -> w_phase_heap w' !! r0 = w_phase_heap w !! r0) /\
    exists ext, w_card_heap w' = w_card_heap w ++ ext.

(** Running [m] only appends requests to the log, and when one of them
    is answered with an HTTP error (4xx or 5xx), it is the last request
    [m] sends and [m] raises that [HTTPError], producing no result. *)
Definition propagates (srv : request -> response) {A} (m : ST world A) : Prop :=
  forall w w' x, m w = (w', x) -> exists new, w_log w' = w_log w ++ new /\
    forall rq, In rq new -> raise_for_status (rs_status (srv rq)) = true ->
      x = Exc (HTTPError (rs_status (srv rq))) /\ last new = Some rq.

(** The labels [get_field_label_by_id] returns for [ids], looked up one
    after the other, each in the state the previous lookups left. *)
Fixpoint labels_of srv email token base_url pipe_data (ids : list pyval)
    : ST world (list pyval) :=
  match ids with
  | [] => ret []
  | k :: ks =>
      let! l := get_field_label_by_id srv email token base_url pipe_data k in
      let! ls := labels_of srv email token base_url pipe_data ks in
      ret (l :: ls)
  end.

(** The ids [get_field_id_by_label] returns for [labels], looked up one
    after the other, each in the state the previous lookups left. *)
Fixpoint field_ids_of srv email token base_url pipe_data (labels : list pyval)
    : ST world (list pyval) :=
  match labels with
  | [] => ret []
  | k :: ks =>
      let! i := get_field_id_by_label srv email token base_url pipe_data k in
      let! is := field_ids_of srv email token base_url pipe_data ks in
      ret (i :: is)
  end.

(** ** Sample inputs *)

(** A remote API answering every request with [200] and an empty body. *)
Definition srv_ok (rq : request) : response := mkResponse 200 BOther.

(** A remote API creating (and returning) the card [99] for every request. *)
Definition srv_card (rq : request) : response :=
  mkResponse 201 (BCard (mkCardJson (PInt 99) [] [])).

(** A pipe with the single phase [10], already loaded into [pipe.phases]
    (and the [lru_cache]), whose fields are [fs]; its field cache is [c]. *)
Definition sample_pipe_data : pipe_json := mkPipeJson [PInt 10].

Definition sample_world (fs : list field) (c : dict) : world :=
  mkWorld [] c (Some [0%nat]) None [(PInt 10, 0%nat)]
    [mkPhaseObj (PInt 10) (mkPhaseJson (PInt 10) fs None) None] [].

(** The same pipe with one fetched Card [cd] (its [values] not computed). *)
Definition sample_card_world (fs : list field) (c : dict) (cd : card_json) : world :=
  mkWorld [] c (Some [0%nat]) None [(PInt 10, 0%nat)]
    [mkPhaseObj (PInt 10) (mkPhaseJson (PInt 10) fs None) None]
    [mkCardObj (cd_id cd) cd None].

(** ** Equality of Python values *)

Lemma pyval_eqb_spec a b : pyval_eqb a b = true <-> a = b.
Proof.
  destruct a, b; simpl; split; intros H; try discriminate; try congruence.
  - apply Z.eqb_eq in H. congruence.
  - inversion H. apply Z.eqb_refl.
  - apply String.eqb_eq in H. congruence.
  - inversion H. apply String.eqb_refl.
Qed.

Lemma pyval_eqb_refl a : pyval_eqb a a = true.
Proof. apply pyval_eqb_spec. reflexivity. Qed.

Lemma pyval_eqb_neq a b : pyval_eqb a b = false <-> a <> b.
Proof.
  split; intros H.
  - intros ->. rewrite pyval_eqb_refl in H. discriminate.
  - destruct (pyval_eqb a b) eqn:E; [|reflexivity].
    apply pyval_eqb_spec in E. contradiction.
Qed.

Global Instance pyval_eq_dec : EqDecision pyval.
Proof.
  intros a b. destruct (pyval_eqb a b) eqn:E.
  - left. apply pyval_eqb_spec. exact E.
  - right. apply pyval_eqb_neq. exact E.
Defined.

(** ** Monad and dict lemmas *)

Lemma bind_ok_inv {S A B} (m : ST S A) (f : A -> ST S B) s s' b :
  bind m f s = (s', Ok b) -> exists s1 a, m s = (s1, Ok a) /\ f a s1 = (s', Ok b).
Proof.
  unfold bind. destruct (m s) as [s1 [a|e]]; intros H; [eauto|discriminate].
Qed.

Lemma bind_exc {S A B} (m : ST S A) (f : A -> ST S B) s s' e :
  m s = (s', Exc e) -> bind m f s = (s', Exc e).
Proof. unfold bind. intros ->. reflexivity. Qed.

Lemma bind_ok {S A B} (m : ST S A) (f : A -> ST S B) s s' a :
  m s = (s', Ok a) -> bind m f s = f a s'.
Proof. unfold bind. intros ->. reflexivity. Qed.

Lemma set_cache_same w : set_cache (w_cache w) w = w.
Proof. destruct w; reflexivity. Qed.

Lemma set_cache_twice c c' w : set_cache c' (set_cache c w) = set_cache c' w.
Proof. destruct w; reflexivity. Qed.

Lemma loaded_set_cache w ds c : loaded w ds -> loaded (set_cache c w) ds.
Proof. destruct w; exact id. Qed.

Lemma dict_get_set k k' v d :
  dict_get k (dict_set k' v d) = if pyval_eqb k' k then Some v else dict_get k d.
Proof.
  induction d as [|[k0 v0] d IH]; simpl.
  - reflexivity.
  - destruct (pyval_eqb k0 k') eqn:E0; simpl.
    + apply pyval_eqb_spec in E0. subst k0.
      destruct (pyval_eqb k' k); reflexivity.
    + rewrite IH. destruct (pyval_eqb k0 k) eqn:E1; [|reflexivity].
      apply pyval_eqb_spec in E1. subst k0.
      destruct (pyval_eqb k' k) eqn:E2; [|reflexivity].
      apply pyval_eqb_spec in E2. subst k'. rewrite pyval_eqb_refl in E0.
      discriminate.
Qed.

Lemma dict_mem_get k d : dict_mem k d = true <-> exists v, dict_get k d = Some v.
Proof.
  induction d as [|[k0 v0] d IH]; simpl.
  - split; [discriminate|intros [v H]; discriminate].
  - destruct (pyval_eqb k0 k); simpl; [split; eauto|exact IH].
Qed.

Lemma dict_get_in k v d : dict_get k d = Some v -> In (k, v) d.
Proof.
  induction d as [|[k0 v0] d IH]; simpl; [discriminate|].
  destruct (pyval_eqb k0 k) eqn:E.
  - apply pyval_eqb_spec in E. intros [= ->]. subst. left. reflexivity.
  - intros H. right. auto.
Qed.

Lemma in_dict_set k v kv d : In kv (dict_set k v d) -> kv = (k, v) \/ In kv d.
Proof.
  induction d as [|[k0 v0] d IH]; simpl.
  - intros [H|[]]. auto.
  - destruct (pyval_eqb k0 k) eqn:E; simpl.
    + apply pyval_eqb_spec in E. subst. intros [H|H]; auto.
    + intros [H|H]; [auto|]. destruct (IH H); auto.
Qed.

Lemma dict_mem_set k k' v d :
  dict_mem k d = true -> dict_mem k (dict_set k' v d) = true.
Proof.
  rewrite !dict_mem_get, dict_get_set. intros [v0 H].
  destruct (pyval_eqb k' k); eauto.
Qed.

Lemma dict_get_set_all k l d :
  dict_get k (dict_set_all l d) =
  match last_val_by (fun k' => pyval_eqb k' k) l with
  | Some v => Some v
  | None => dict_get k d
  end.
Proof.
  unfold dict_set_all. revert d.
  induction l as [|[k0 v0] l IH]; intros d; [reflexivity|].
  cbn [fold_left last_val_by fst snd]. rewrite IH, dict_get_set.
  destruct (last_val_by _ l); [reflexivity|].
  destruct (pyval_eqb k0 k); reflexivity.
Qed.

(** ** Well-formedness predicates as propositions *)

Lemma is_label_spec fs k : is_label fs k = true <-> exists f, In f fs /\ f_label f = k.
Proof.
  unfold is_label. rewrite existsb_exists.
  split; intros [f [Hf E]]; exists f; split; auto; apply pyval_eqb_spec; auto.
Qed.

Lemma is_id_spec fs k : is_id fs k = true <-> exists f, In f fs /\ f_id f = k.
Proof.
  unfold is_id. rewrite existsb_exists.
  split; intros [f [Hf E]]; exists f; split; auto; apply pyval_eqb_spec; auto.
Qed.

Lemma not_is_label fs k f : is_label fs k = false -> In f fs -> f_label f <> k.
Proof.
  intros H Hf E. assert (is_label fs k = true) by (apply is_label_spec; eauto).
  congruence.
Qed.

Lemma not_is_id fs k f : is_id fs k = false -> In f fs -> f_id f <> k.
Proof.
  intros H Hf E. assert (is_id fs k = true) by (apply is_id_spec; eauto).
  congruence.
Qed.

Lemma uniq_ids_spec fs f g :
  uniq_ids fs = true -> In f fs -> In g fs -> f_id f = f_id g -> f_label f = f_label g.
Proof.
  unfold uniq_ids. rewrite forallb_forall. intros H Hf Hg E.
  specialize (H f Hf). rewrite forallb_forall in H. specialize (H g Hg).
  apply orb_prop in H as [H|H].
  - rewrite E, pyval_eqb_refl in H. discriminate.
  - apply pyval_eqb_spec. exact H.
Qed.

Lemma uniq_labels_spec fs f g :
  uniq_labels fs = true -> In f fs -> In g fs -> f_label f = f_label g -> f_id f = f_id g.
Proof.
  unfold uniq_labels. rewrite forallb_forall. intros H Hf Hg E.
  specialize (H f Hf). rewrite forallb_forall in H. specialize (H g Hg).
  apply orb_prop in H as [H|H].
  - rewrite E, pyval_eqb_refl in H. discriminate.
  - apply pyval_eqb_spec. exact H.
Qed.

Lemma disjoint_spec fs f g :
  disjoint fs = true -> In f fs -> In g fs -> f_label f <> f_id g.
Proof.
  unfold disjoint. rewrite forallb_forall. intros H Hf Hg E.
  specialize (H f Hf). apply negb_true_iff in H.
  apply (not_is_id _ _ g H Hg). congruence.
Qed.

Lemma cache_ok_spec fs c :
  cache_ok fs c = true <->
  (forall k v, In (k, v) c -> exists f, In f fs /\
     ((f_label f = k /\ f_id f = v) \/ (f_id f = k /\ f_label f = v))).
Proof.
  unfold cache_ok. rewrite forallb_forall. split.
  - intros H k v Hin. specialize (H _ Hin). apply existsb_exists in H as [f [Hf H]].
    exists f. split; [exact Hf|]. simpl in H.
    apply orb_prop in H as [H|H]; apply andb_prop in H as [H1 H2];
      apply pyval_eqb_spec in H1, H2; auto.
  - intros H [k v] Hin. destruct (H k v Hin) as [f [Hf Hc]].
    apply existsb_exists. exists f. split; [exact Hf|]. simpl.
    destruct Hc as [[-> ->]|[-> ->]]; rewrite !pyval_eqb_refl;
      [reflexivity|apply orb_true_r].
Qed.

Lemma cache_ok_set fs c f :
  cache_ok fs c = true -> In f fs ->
  cache_ok fs (dict_set (f_id f) (f_label f) (dict_set (f_label f) (f_id f) c)) = true.
Proof.
  rewrite !cache_ok_spec. intros H Hf k v Hin.
  apply in_dict_set in Hin as [[= -> ->]|Hin]; [eauto|].
  apply in_dict_set in Hin as [[= -> ->]|Hin]; eauto.
Qed.

(** ** The field scan *)

Lemma scan_fields_app h fs1 fs2 c :
  scan_fields h (fs1 ++ fs2) c =
  let '(c1, b) := scan_fields h fs1 c in
  if b then (c1, true) else scan_fields h fs2 c1.
Proof.
  revert c. induction fs1 as [|f fs1 IH]; intros c; [reflexivity|].
  simpl. destruct (h f); [reflexivity|]. apply IH.
Qed.

Lemma scan_fields_true h fs c c' :
  scan_fields h fs c = (c', true) ->
  exists f, In f fs /\ h f = true /\
    dict_get (f_id f) c' = Some (f_label f) /\
    (f_id f <> f_label f -> dict_get (f_label f) c' = Some (f_id f)).
Proof.
  revert c. induction fs as [|f fs IH]; intros c; simpl; [discriminate|].
  destruct (h f) eqn:Hh.
  - intros [= <-]. exists f. split; [left; reflexivity|]. split; [exact Hh|].
    rewrite !dict_get_set, pyval_eqb_refl. split; [reflexivity|].
    intros Hne. apply pyval_eqb_neq in Hne. rewrite Hne, pyval_eqb_refl.
    reflexivity.
  - intros Hs. destruct (IH _ Hs) as [g [Hg Hrest]]. exists g. auto.
Qed.

Lemma scan_fields_false h fs c :
  (forall f, In f fs -> h f = false) -> scan_fields h fs c = (write_all fs c, false).
Proof.
  revert c. induction fs as [|f fs IH]; intros c Hno; [reflexivity|].
  simpl. rewrite (Hno f (or_introl eq_refl)). apply IH.
  intros g Hg. apply Hno. right. exact Hg.
Qed.

Lemma scan_fields_found h fs c :
  (exists f, In f fs /\ h f = true) -> snd (scan_fields h fs c) = true.
Proof.
  revert c. induction fs as [|f fs IH]; intros c [g [Hg Hh]]; [destruct Hg|].
  simpl. destruct (h f) eqn:Hf; [reflexivity|].
  destruct Hg as [<-|Hg]; [congruence|]. apply IH. eauto.
Qed.

Lemma scan_fields_cache_ok fs0 h fs c :
  incl fs fs0 -> cache_ok fs0 c = true -> cache_ok fs0 (fst (scan_fields h fs c)) = true.
Proof.
  revert c. induction fs as [|f fs IH]; intros c Hincl Hok; [exact Hok|].
  simpl. assert (Hc := cache_ok_set fs0 c f Hok (Hincl f (or_introl eq_refl))).
  destruct (h f); [exact Hc|]. apply IH; [|exact Hc].
  intros g Hg. apply Hincl. right. exact Hg.
Qed.

Lemma scan_fields_mem h fs c k :
  dict_mem k c = true -> dict_mem k (fst (scan_fields h fs c)) = true.
Proof.
  revert c. induction fs as [|f fs IH]; intros c Hk; [exact Hk|].
  simpl. assert (Hc : dict_mem k (dict_set (f_id f) (f_label f)
                    (dict_set (f_label f) (f_id f) c)) = true)
    by (apply dict_mem_set, dict_mem_set, Hk).
  destruct (h f); [exact Hc|]. apply IH, Hc.
Qed.

Lemma resolve_id_some fs f :
  uniq_ids fs = true -> In f fs -> resolve_id fs (f_id f) = f_label f.
Proof.
  intros Hu Hf. unfold resolve_id.
  destruct (find _ fs) as [g|] eqn:E.
  - apply find_some in E as [Hg E]. apply pyval_eqb_spec in E.
    exact (uniq_ids_spec fs g f Hu Hg Hf E).
  - eapply find_none in E; [|exact Hf]. rewrite pyval_eqb_refl in E. discriminate.
Qed.

Lemma resolve_id_none fs k : is_id fs k = false -> resolve_id fs k = PNone.
Proof.
  intros H. unfold resolve_id. destruct (find _ fs) as [g|] eqn:E; [|reflexivity].
  apply find_some in E as [Hg E]. apply pyval_eqb_spec in E.
  exfalso. exact (not_is_id fs k g H Hg E).
Qed.

Lemma resolve_label_some fs f :
  uniq_labels fs = true -> In f fs -> resolve_label fs (f_label f) = f_id f.
Proof.
  intros Hu Hf. unfold resolve_label.
  destruct (find _ fs) as [g|] eqn:E.
  - apply find_some in E as [Hg E]. apply pyval_eqb_spec in E.
    exact (uniq_labels_spec fs g f Hu Hg Hf E).
  - eapply find_none in E; [|exact Hf]. rewrite pyval_eqb_refl in E. discriminate.
Qed.

Lemma resolve_label_none fs k : is_label fs k = false -> resolve_label fs k = PNone.
Proof.
  intros H. unfold resolve_label. destruct (find _ fs) as [g|] eqn:E; [|reflexivity].
  apply find_some in E as [Hg E]. apply pyval_eqb_spec in E.
  exfalso. exact (not_is_label fs k g H Hg E).
Qed.

(** ** Lookups on a cache, without the object graph *)

Lemma lookup_pure_cache_ok h k fs c :
  cache_ok fs c = true -> cache_ok fs (fst (lookup_pure h k fs c)) = true.
Proof.
  intros Hok. unfold lookup_pure. destruct (dict_mem k c); [exact Hok|].
  pose proof (scan_fields_cache_ok fs h fs c (incl_refl fs) Hok) as H.
  destruct (scan_fields h fs c) as [c' []]; exact H.
Qed.

(** A lookup never fails with [KeyError]: the key it returns was written. *)
Lemma lookup_pure_some h k fs c :
  (forall f, h f = true -> f_label f = k \/ f_id f = k) ->
  exists v, snd (lookup_pure h k fs c) = Ok v.
Proof.
  intros Hh. unfold lookup_pure, dict_getitem.
  destruct (dict_mem k c) eqn:Hm.
  - apply dict_mem_get in Hm as [v Hv]. rewrite Hv. eauto.
  - destruct (scan_fields h fs c) as [c' []] eqn:Es; [|eauto].
    apply scan_fields_true in Es as [f [_ [Hf [Hid Hlab]]]]. simpl.
    destruct (Hh f Hf) as [E|E].
    + destruct (decide (f_id f = f_label f)) as [Ee|Ne].
      * rewrite <- E, <- Ee, Hid. eauto.
      * rewrite <- E, (Hlab Ne). eauto.
    + rewrite <- E, Hid. eauto.
Qed.

(** [get_field_id_by_label] on a label the schema resolves unambiguously. *)
Lemma lookup_id_pure fs c k :
  cache_ok fs c = true -> uniq_labels fs = true -> disjoint fs = true ->
  (is_label fs k || negb (is_id fs k)) = true ->
  snd (lookup_pure (fun f => pyval_eqb (f_label f) k) k fs c) = Ok (resolve_label fs k).
Proof.
  intros Hok Hu Hd Hq. unfold lookup_pure, dict_getitem.
  destruct (dict_mem k c) eqn:Hm.
  - apply dict_mem_get in Hm as [v Hv]. rewrite Hv. simpl.
    apply dict_get_in in Hv. rewrite cache_ok_spec in Hok.
    destruct (Hok _ _ Hv) as [f [Hf [[<- <-]|[Ek Ev]]]].
    + rewrite resolve_label_some; auto.
    + assert (Hi : is_id fs k = true) by (apply is_id_spec; eauto).
      rewrite Hi in Hq. simpl in Hq. rewrite orb_false_r in Hq.
      apply is_label_spec in Hq as [g [Hg Eg]].
      exfalso. apply (disjoint_spec fs g f Hd Hg Hf). congruence.
  - destruct (scan_fields _ fs c) as [c' []] eqn:Es.
    + apply scan_fields_true in Es as [f [Hf [E [_ Hlab]]]]. simpl.
      apply pyval_eqb_spec in E. subst k.
      rewrite Hlab; [rewrite resolve_label_some; auto|].
      intros Ee. apply (disjoint_spec fs f f Hd Hf Hf). congruence.
    + simpl. rewrite resolve_label_none; [reflexivity|].
      destruct (is_label fs k) eqn:Hl; [|reflexivity].
      apply is_label_spec in Hl as [f [Hf E]].
      assert (Hs := scan_fields_found (fun f => pyval_eqb (f_label f) k) fs c).
      rewrite Es in Hs. symmetry. apply Hs. exists f.
      split; [exact Hf|]. apply pyval_eqb_spec. exact E.
Qed.

(** [get_field_label_by_id] on an id the schema resolves unambiguously. *)
Lemma lookup_label_pure fs c k :
  cache_ok fs c = true -> uniq_ids fs = true -> disjoint fs = true ->
  (is_id fs k || negb (is_label fs k)) = true ->
  snd (lookup_pure (fun f => pyval_eqb (f_id f) k) k fs c) = Ok (resolve_id fs k).
Proof.
  intros Hok Hu Hd Hq. unfold lookup_pure, dict_getitem.
  destruct (dict_mem k c) eqn:Hm.
  - apply dict_mem_get in Hm as [v Hv]. rewrite Hv. simpl.
    apply dict_get_in in Hv. rewrite cache_ok_spec in Hok.
    destruct (Hok _ _ Hv) as [f [Hf [[Ek Ev]|[<- <-]]]].
    + assert (Hl : is_label fs k = true) by (apply is_label_spec; eauto).
      rewrite Hl in Hq. simpl in Hq. rewrite orb_false_r in Hq.
      apply is_id_spec in Hq as [g [Hg Eg]].
      exfalso. apply (disjoint_spec fs f g Hd Hf Hg). congruence.
    + rewrite resolve_id_some; auto.
  - destruct (scan_fields _ fs c) as [c' []] eqn:Es.
    + apply scan_fields_true in Es as [f [Hf [E [Hid _]]]]. simpl.
      apply pyval_eqb_spec in E. subst k.
      rewrite Hid, resolve_id_some; auto.
    + simpl. rewrite resolve_id_none; [reflexivity|].
      destruct (is_id fs k) eqn:Hl; [|reflexivity].
      apply is_id_spec in Hl as [f [Hf E]].
      assert (Hs := scan_fields_found (fun f => pyval_eqb (f_id f) k) fs c).
      rewrite Es in Hs. symmetry. apply Hs. exists f.
      split; [exact Hf|]. apply pyval_eqb_spec. exact E.
Qed.

(** A key that is neither a label nor an id: a full scan, then [None]. *)
Lemma lookup_absent h fs c k :
  cache_ok fs c = true -> is_label fs k = false -> is_id fs k = false ->
  (forall f, In f fs -> h f = false) ->
  lookup_pure h k fs c = (write_all fs c, Ok PNone).
Proof.
  intros Hok Hl Hi Hh. unfold lookup_pure.
  destruct (dict_mem k c) eqn:Hm.
  - exfalso. apply dict_mem_get in Hm as [v Hv]. apply dict_get_in in Hv.
    rewrite cache_ok_spec in Hok.
    destruct (Hok _ _ Hv) as [f [Hf [[E _]|[E _]]]].
    + exact (not_is_label fs k f Hl Hf E).
    + exact (not_is_id fs k f Hi Hf E).
  - rewrite scan_fields_false by exact Hh. reflexivity.
Qed.

(** ** Lookups on a Pipe whose phases are loaded *)

Section Loaded.

Variable srv : request -> response.
Variables (email token base_url : string).
Variable pipe_data : pipe_json.

Lemma phases_cached w rs :
  w_phases w = Some rs -> phases srv email token base_url pipe_data w = (w, Ok rs).
Proof. intros H. unfold phases, bind, gets. rewrite H. reflexivity. Qed.

Lemma scan_phases_loaded h rs ds w :
  read_datas (w_phase_heap w) rs = Some ds ->
  scan_phases h rs w =
  let '(c', b) := scan_fields h (fields_of ds) (w_cache w) in (set_cache c' w, Ok b).
Proof.
  revert ds w. induction rs as [|r rs IH]; intros ds w Hd.
  - simpl in Hd. injection Hd as <-. simpl. rewrite set_cache_same. reflexivity.
  - simpl in Hd. destruct (w_phase_heap w !! r) as [po|] eqn:Hr; [|discriminate].
    destruct (read_datas (w_phase_heap w) rs) as [ds'|] eqn:Hds; [|discriminate].
    injection Hd as <-.
    cbn [scan_phases]. unfold bind at 1, read_phase. rewrite Hr.
    unfold fields_of. cbn [map concat]. rewrite scan_fields_app.
    unfold bind at 1, gets. cbv beta iota.
    destruct (scan_fields h (pd_fields (po_data po)) (w_cache w)) as [c1 []].
    + reflexivity.
    + unfold bind, modify. rewrite IH with (ds := ds') by exact Hds.
      unfold fields_of. cbn [w_cache set_cache].
      destruct (scan_fields h (concat (map pd_fields ds')) c1) as [c2 b].
      destruct w; reflexivity.
Qed.

Lemma get_field_id_by_label_loaded w ds label :
  loaded w ds ->
  get_field_id_by_label srv email token base_url pipe_data label w =
  let '(c', r) := lookup_pure (fun f => pyval_eqb (f_label f) label) label
                    (fields_of ds) (w_cache w) in (set_cache c' w, r).
Proof.
  intros [rs [Hp Hd]]. unfold get_field_id_by_label, lookup_pure.
  unfold bind at 1, gets. cbv beta iota.
  destruct (dict_mem label (w_cache w)).
  - unfold cache_getitem. rewrite set_cache_same. reflexivity.
  - rewrite (bind_ok _ _ _ _ _ (phases_cached w rs Hp)).
    unfold bind at 1. rewrite (scan_phases_loaded _ rs ds w Hd).
    destruct (scan_fields _ (fields_of ds) (w_cache w)) as [c' []]; reflexivity.
Qed.

Lemma get_field_label_by_id_loaded w ds id :
  loaded w ds ->
  get_field_label_by_id srv email token base_url pipe_data id w =
  let '(c', r) := lookup_pure (fun f => pyval_eqb (f_id f) id) id
                    (fields_of ds) (w_cache w) in (set_cache c' w, r).
Proof.
  intros [rs [Hp Hd]]. unfold get_field_label_by_id, lookup_pure.
  unfold bind at 1, gets. cbv beta iota.
  destruct (dict_mem id (w_cache w)).
  - unfold cache_getitem. rewrite set_cache_same. reflexivity.
  - rewrite (bind_ok _ _ _ _ _ (phases_cached w rs Hp)).
    unfold bind at 1. rewrite (scan_phases_loaded _ rs ds w Hd).
    destruct (scan_fields _ (fields_of ds) (w_cache w)) as [c' []]; reflexivity.
Qed.

End Loaded.

Lemma lookup_id_found fs c k :
  cache_ok fs c = true -> disjoint fs = true -> is_label fs k = true ->
  exists f, In f fs /\ f_label f = k /\
    snd (lookup_pure (fun f => pyval_eqb (f_label f) k) k fs c) = Ok (f_id f).
Proof.
  intros Hok Hd Hl. unfold lookup_pure, dict_getitem.
  destruct (dict_mem k c) eqn:Hm.
  - apply dict_mem_get in Hm as [v Hv]. rewrite Hv. simpl.
    apply dict_get_in in Hv. rewrite cache_ok_spec in Hok.
    destruct (Hok _ _ Hv) as [f [Hf [[Ek <-]|[Ek _]]]]; [eauto|].
    apply is_label_spec in Hl as [g [Hg Eg]].
    exfalso. apply (disjoint_spec fs g f Hd Hg Hf). congruence.
  - assert (Hs := scan_fields_found (fun f => pyval_eqb (f_label f) k) fs c).
    destruct (scan_fields _ fs c) as [c' []] eqn:Es.
    + apply scan_fields_true in Es as [f [Hf [E [_ Hlab]]]]. simpl.
      apply pyval_eqb_spec in E. exists f. split; [exact Hf|]. split; [exact E|].
      subst k. rewrite Hlab; [reflexivity|].
      intros Ee. apply (disjoint_spec fs f f Hd Hf Hf). congruence.
    + exfalso. apply is_label_spec in Hl as [f [Hf E]].
      enough (false = true) by discriminate. apply Hs. exists f.
      split; [exact Hf|]. apply pyval_eqb_spec. exact E.
Qed.

(** What [create_card] sends for one [(label, value)] pair. *)
Definition field_value_ok (fs : list field) (kv fv : pyval * pyval) : Prop :=
  snd fv = snd kv /\
  ((is_label fs (fst kv) = false /\ is_id fs (fst kv) = false) -> fst fv = PNone) /\
  (uniq_labels fs = true -> disjoint fs = true ->
   (is_label fs (fst kv) || negb (is_id fs (fst kv))) = true ->
   fst fv = resolve_label fs (fst kv)).

Lemma build_field_values_loaded srv email token base_url pipe_data items w ds :
  loaded w ds -> cache_ok (fields_of ds) (w_cache w) = true ->
  exists c' fvs,
    build_field_values srv email token base_url pipe_data items w =
      (set_cache c' w, Ok fvs) /\
    cache_ok (fields_of ds) c' = true /\
    Forall2 (field_value_ok (fields_of ds)) items fvs.
Proof.
  revert w. induction items as [|[k v] items IH]; intros w Hl Hok.
  - exists (w_cache w), []. rewrite set_cache_same. auto.
  - cbn [build_field_values]. unfold bind at 1.
    rewrite (get_field_id_by_label_loaded _ _ _ _ _ w ds k Hl).
    pose proof (lookup_pure_cache_ok (fun f => pyval_eqb (f_label f) k) k
                  (fields_of ds) (w_cache w) Hok) as Hok1.
    destruct (lookup_pure_some (fun f => pyval_eqb (f_label f) k) k
                (fields_of ds) (w_cache w)) as [i Hi].
    { intros f Hf. left. apply pyval_eqb_spec. exact Hf. }
    assert (Habs : is_label (fields_of ds) k = false -> is_id (fields_of ds) k = false ->
                   i = PNone).
    { intros Hla Hid. rewrite lookup_absent in Hi; auto.
      - simpl in Hi. congruence.
      - intros f Hf. apply pyval_eqb_neq. exact (not_is_label _ _ f Hla Hf). }
    assert (Hwf : uniq_labels (fields_of ds) = true -> disjoint (fields_of ds) = true ->
                  (is_label (fields_of ds) k || negb (is_id (fields_of ds) k)) = true ->
                  i = resolve_label (fields_of ds) k).
    { intros Hu Hd Hq. rewrite (lookup_id_pure _ _ _ Hok Hu Hd Hq) in Hi. congruence. }
    destruct (lookup_pure _ k (fields_of ds) (w_cache w)) as [c1 r] eqn:E.
    simpl in Hi, Hok1. subst r.
    destruct (IH (set_cache c1 w) (loaded_set_cache w ds c1 Hl) Hok1)
      as [c2 [fvs [Hb [Hok2 Hf]]]].
    unfold bind at 1. rewrite Hb. exists c2, ((i, v) :: fvs).
    rewrite set_cache_twice. split; [reflexivity|]. split; [exact Hok2|].
    constructor; [|exact Hf]. unfold field_value_ok. simpl.
    split; [reflexivity|]. split; [intros [Ha Hb']; auto | exact Hwf].
Qed.

Lemma field_values_snd fs items fvs :
  Forall2 (field_value_ok fs) items fvs -> map snd fvs = map snd items.
Proof.
  intros HF. induction HF as [|kv fv items fvs [Hv _] HF IH]; [reflexivity|].
  simpl. rewrite Hv, IH. reflexivity.
Qed.

(** [create_card]'s loop is [field_ids_of] on the labels of [values],
    each id paired with its value. *)
Lemma build_field_values_ids srv email token base_url pipe_data items w :
  build_field_values srv email token base_url pipe_data items w =
  match field_ids_of srv email token base_url pipe_data (map fst items) w with
  | (w1, Ok ids) => (w1, Ok (zip ids (map snd items)))
  | (w1, Exc e) => (w1, Exc e)
  end.
Proof.
  revert w. induction items as [|[k v] items IH]; intros w; [reflexivity|].
  cbn [build_field_values field_ids_of map fst snd]. unfold bind.
  destruct (get_field_id_by_label srv email token base_url pipe_data k w) as [w1 [i|e]];
    [|reflexivity].
  rewrite IH.
  destruct (field_ids_of srv email token base_url pipe_data (map fst items) w1)
    as [w2 [is|e]]; reflexivity.
Qed.

Lemma field_ids_of_length srv email token base_url pipe_data ks w w' ids :
  field_ids_of srv email token base_url pipe_data ks w = (w', Ok ids) ->
  length ids = length ks.
Proof.
  revert w w' ids. induction ks as [|k ks IH]; intros w w' ids H.
  - cbn [field_ids_of] in H. injection H as _ <-. reflexivity.
  - cbn [field_ids_of] in H. apply bind_ok_inv in H as [w1 [i [_ H]]].
    apply bind_ok_inv in H as [w2 [is [H2 H]]]. injection H as _ <-.
    simpl. f_equal. exact (IH _ _ _ H2).
Qed.

(** Once the field values are built, [create_card] sends the POST,
    whatever the server answers. *)
Lemma create_card_log srv email token base_url pipe_id pipe_data title values w w1 fvs :
  build_field_values srv email token base_url pipe_data values w = (w1, Ok fvs) ->
  w_log (fst (create_card srv email token base_url pipe_id pipe_data title values w)) =
    w_log w1 ++ [mkRequest POST (get_url base_url (create_card_endpoint pipe_id))
                   (headers email token) (Some (mkPayload title fvs))].
Proof.
  intros H. unfold create_card. rewrite (bind_ok _ _ _ _ _ H).
  unfold bind, lift_log, client_post, http_request.
  destruct (raise_for_status _); [reflexivity|].
  unfold lift_res. destruct (json_card _); reflexivity.
Qed.

(** When [create_card] returns, the Card is built from the decoded
    response to its POST. *)
Lemma create_card_ok srv email token base_url pipe_id pipe_data title values w w1 fvs w' r :
  build_field_values srv email token base_url pipe_data values w = (w1, Ok fvs) ->
  create_card srv email token base_url pipe_id pipe_data title values w = (w', Ok r) ->
  exists cd,
    json_card (srv (mkRequest POST (get_url base_url (create_card_endpoint pipe_id))
                      (headers email token) (Some (mkPayload title fvs)))) = Ok cd /\
    w_card_heap w' !! r = Some (mkCardObj (cd_id cd) cd None).
Proof.
  intros H1 H. unfold create_card in H. rewrite (bind_ok _ _ _ _ _ H1) in H.
  unfold bind, lift_log, client_post, http_request in H.
  destruct (raise_for_status _); [discriminate H|].
  unfold lift_res in H. destruct (json_card _) as [cd|e] eqn:E; [|discriminate H].
  unfold alloc_card in H. injection H as <- <-. exists cd. split; [reflexivity|].
  cbn [w_card_heap set_card_heap set_log]. apply list_lookup_middle. reflexivity.
Qed.

(** ** [Card.values] on a loaded Pipe *)

Lemma dict_set_all_app l1 l2 d :
  dict_set_all (l1 ++ l2) d = dict_set_all l2 (dict_set_all l1 d).
Proof. unfold dict_set_all. apply fold_left_app. Qed.

Lemma last_val_by_app p l1 l2 :
  last_val_by p (l1 ++ l2) =
  match last_val_by p l2 with Some v => Some v | None => last_val_by p l1 end.
Proof.
  induction l1 as [|[k v] l1 IH]; simpl.
  - destruct (last_val_by p l2); reflexivity.
  - rewrite IH. destruct (last_val_by p l2); reflexivity.
Qed.

(** An id of the schema, or a key that is no label: resolved by [resolve_id]. *)
Definition id_query_ok (fs : list field) (l : list (pyval * pyval)) : bool :=
  forallb (fun kv => is_id fs (fst kv) || negb (is_label fs (fst kv))) l.

Section Values.

Variable srv : request -> response.
Variables (email token base_url : string).
Variable pipe_data : pipe_json.
Variable ds : list phase_json.
Hypothesis Hu : uniq_ids (fields_of ds) = true.
Hypothesis Hd : disjoint (fields_of ds) = true.

Lemma get_label_resolved w k :
  loaded w ds -> cache_ok (fields_of ds) (w_cache w) = true ->
  (is_id (fields_of ds) k || negb (is_label (fields_of ds) k)) = true ->
  exists c', get_field_label_by_id srv email token base_url pipe_data k w =
               (set_cache c' w, Ok (resolve_id (fields_of ds) k)) /\
             cache_ok (fields_of ds) c' = true.
Proof.
  intros Hl Hok Hq. rewrite (get_field_label_by_id_loaded _ _ _ _ _ w ds k Hl).
  pose proof (lookup_label_pure _ _ _ Hok Hu Hd Hq) as Hr.
  pose proof (lookup_pure_cache_ok (fun f => pyval_eqb (f_id f) k) k
                (fields_of ds) (w_cache w) Hok) as Hok1.
  destruct (lookup_pure _ k (fields_of ds) (w_cache w)) as [c' r].
  simpl in Hr, Hok1. subst r. eauto.
Qed.

Lemma values_hist_loaded fvs d w :
  loaded w ds -> cache_ok (fields_of ds) (w_cache w) = true ->
  id_query_ok (fields_of ds) (map (fun fv => (hfv_field_id fv, hfv_value fv)) fvs) = true ->
  exists c', values_hist srv email token base_url pipe_data fvs d w =
    (set_cache c' w, Ok (dict_set_all (resolve_pairs (fields_of ds)
                          (map (fun fv => (hfv_field_id fv, hfv_value fv)) fvs)) d)) /\
    cache_ok (fields_of ds) c' = true.
Proof.
  revert d w. induction fvs as [|fv fvs IH]; intros d w Hl Hok Hq.
  - exists (w_cache w). rewrite set_cache_same. auto.
  - simpl in Hq. apply andb_prop in Hq as [Hq1 Hq2].
    destruct (get_label_resolved w _ Hl Hok Hq1) as [c1 [Hg Hok1]].
    cbn [values_hist]. unfold bind at 1. rewrite Hg.
    destruct (IH (dict_set (resolve_id (fields_of ds) (hfv_field_id fv)) (hfv_value fv) d)
                (set_cache c1 w) (loaded_set_cache _ _ _ Hl) Hok1 Hq2) as [c2 [Hv Hok2]].
    rewrite Hv, set_cache_twice. eauto.
Qed.

Lemma values_details_loaded pds d w :
  loaded w ds -> cache_ok (fields_of ds) (w_cache w) = true ->
  id_query_ok (fields_of ds)
    (map (fun fv => (hfv_field_id fv, hfv_value fv)) (concat pds)) = true ->
  exists c', values_details srv email token base_url pipe_data pds d w =
    (set_cache c' w, Ok (dict_set_all (resolve_pairs (fields_of ds)
               (map (fun fv => (hfv_field_id fv, hfv_value fv)) (concat pds))) d)) /\
    cache_ok (fields_of ds) c' = true.
Proof.
  revert d w. induction pds as [|fvs pds IH]; intros d w Hl Hok Hq.
  - exists (w_cache w). rewrite set_cache_same. auto.
  - cbn [concat] in *. rewrite map_app in *. unfold id_query_ok in Hq.
    rewrite forallb_app in Hq. apply andb_prop in Hq as [Hq1 Hq2].
    destruct (values_hist_loaded fvs d w Hl Hok Hq1) as [c1 [Hh Hok1]].
    cbn [values_details]. unfold bind at 1. rewrite Hh.
    destruct (IH (dict_set_all (resolve_pairs (fields_of ds)
                   (map (fun fv => (hfv_field_id fv, hfv_value fv)) fvs)) d)
                (set_cache c1 w) (loaded_set_cache _ _ _ Hl) Hok1 Hq2) as [c2 [Hv Hok2]].
    rewrite Hv, set_cache_twice. unfold resolve_pairs. rewrite map_app, dict_set_all_app.
    eauto.
Qed.

Lemma values_current_loaded fvs d w :
  loaded w ds -> cache_ok (fields_of ds) (w_cache w) = true ->
  id_query_ok (fields_of ds) (map (fun fv => (cfv_id fv, cfv_value fv)) fvs) = true ->
  exists c', values_current srv email token base_url pipe_data fvs d w =
    (set_cache c' w, Ok (dict_set_all (resolve_pairs (fields_of ds)
                          (map (fun fv => (cfv_id fv, cfv_value fv)) fvs)) d)) /\
    cache_ok (fields_of ds) c' = true.
Proof.
  revert d w. induction fvs as [|fv fvs IH]; intros d w Hl Hok Hq.
  - exists (w_cache w). rewrite set_cache_same. auto.
  - simpl in Hq. apply andb_prop in Hq as [Hq1 Hq2].
    destruct (get_label_resolved w _ Hl Hok Hq1) as [c1 [Hg Hok1]].
    cbn [values_current]. unfold bind at 1. rewrite Hg.
    destruct (IH (dict_set (resolve_id (fields_of ds) (cfv_id fv)) (cfv_value fv) d)
                (set_cache c1 w) (loaded_set_cache _ _ _ Hl) Hok1 Hq2) as [c2 [Hv Hok2]].
    rewrite Hv, set_cache_twice. eauto.
Qed.

(** [card.values] of a fetched card: every field value, historical ones
    first, each under the label its id resolves to. *)
Lemma card_values_loaded w r co :
  loaded w ds -> cache_ok (fields_of ds) (w_cache w) = true ->
  w_card_heap w !! r = Some co -> co_values co = None ->
  id_query_ok (fields_of ds) (card_pairs (co_data co)) = true ->
  exists w', card_values srv email token base_url pipe_data r w =
    (w', Ok (dict_set_all (resolve_pairs (fields_of ds) (card_pairs (co_data co))) [])).
Proof.
  intros Hl Hok Hr Hv Hq. unfold card_pairs, id_query_ok in Hq.
  rewrite forallb_app in Hq. apply andb_prop in Hq as [Hq1 Hq2].
  unfold card_values, bind at 1, read_card. rewrite Hr. cbv beta iota. rewrite Hv.
  destruct (values_details_loaded (cd_other_phase_details (co_data co)) [] w Hl Hok Hq1)
    as [c1 [H1 Hok1]].
  unfold bind at 1. rewrite H1.
  destruct (values_current_loaded (cd_current_field_values (co_data co))
              (dict_set_all (resolve_pairs (fields_of ds)
                 (map (fun fv => (hfv_field_id fv, hfv_value fv))
                    (concat (cd_other_phase_details (co_data co))))) [])
              (set_cache c1 w) (loaded_set_cache _ _ _ Hl) Hok1 Hq2) as [c2 [H2 _]].
  unfold bind at 1. rewrite H2.
  unfold bind, read_card. cbn [w_card_heap set_cache]. rewrite Hr.
  unfold card_pairs, resolve_pairs. rewrite map_app, dict_set_all_app. eexists. reflexivity.
Qed.

End Values.

(** * Properties *)

(** C1 (amended). On a Pipe whose phases are loaded, where fields with
    the same id have the same label, no field's label is a field's id, and
    the cache holds only bindings the lookups write, resolving a label
    that occurs in some phase's field list to an id and that id back to a
    label yields the original label. *)
Theorem field_id_label_roundtrip srv email token base_url pipe_data w ds label :
  loaded w ds ->
  cache_ok (fields_of ds) (w_cache w) = true ->
  uniq_ids (fields_of ds) = true ->
  disjoint (fields_of ds) = true ->
  is_label (fields_of ds) label = true ->
  exists w1 i w2,
    get_field_id_by_label srv email token base_url pipe_data label w = (w1, Ok i) /\
    get_field_label_by_id srv email token base_url pipe_data i w1 = (w2, Ok label).
Proof.
  intros Hl Hok Hu Hd Hlab.
  rewrite (get_field_id_by_label_loaded _ _ _ _ _ w ds label Hl).
  destruct (lookup_id_found _ _ _ Hok Hd Hlab) as [f [Hf [Ef Hr]]].
  pose proof (lookup_pure_cache_ok (fun f => pyval_eqb (f_label f) label) label
                (fields_of ds) (w_cache w) Hok) as Hok1.
  destruct (lookup_pure _ label (fields_of ds) (w_cache w)) as [c1 r] eqn:E.
  simpl in Hr, Hok1. subst r.
  exists (set_cache c1 w), (f_id f).
  rewrite (get_field_label_by_id_loaded _ _ _ _ _ _ ds _ (loaded_set_cache w ds c1 Hl)).
  assert (Hq : (is_id (fields_of ds) (f_id f) || negb (is_label (fields_of ds) (f_id f)))
               = true).
  { assert (is_id (fields_of ds) (f_id f) = true) as -> by (apply is_id_spec; eauto).
    reflexivity. }
  change (w_cache (set_cache c1 w)) with c1.
  pose proof (lookup_label_pure _ _ _ Hok1 Hu Hd Hq) as Hr2.
  destruct (lookup_pure (fun f0 => pyval_eqb (f_id f0) (f_id f)) (f_id f)
              (fields_of ds) c1) as [c2 r2].
  simpl in Hr2. rewrite Hr2, resolve_id_some, Ef by assumption.
  eexists. split; reflexivity.
Qed.

Lemma field_id_label_roundtrip_witness :
  exists w1 i w2,
    get_field_id_by_label srv_ok "" "" "" sample_pipe_data (PStr "A")
      (sample_world [mkField (PInt 1) (PStr "A"); mkField (PInt 2) (PStr "B")] [])
      = (w1, Ok i) /\
    get_field_label_by_id srv_ok "" "" "" sample_pipe_data i w1 = (w2, Ok (PStr "A")).
Proof.
  apply (field_id_label_roundtrip srv_ok "" "" "" sample_pipe_data
          (sample_world [mkField (PInt 1) (PStr "A"); mkField (PInt 2) (PStr "B")] [])
          [mkPhaseJson (PInt 10) [mkField (PInt 1) (PStr "A"); mkField (PInt 2) (PStr "B")] None]
          (PStr "A")).
  - exists [0%nat]. split; reflexivity.
  - reflexivity.
  - reflexivity.
  - reflexivity.
  - reflexivity.
Defined.

(** C1, counterexample: two fields share the id [1].  A lookup of the
    absent label ["Z"] scans all fields and leaves [1 -> "B"]; on that
    Pipe, ["A"] resolves to [1] and [1] back to ["B"], not ["A"]. *)
Lemma field_id_label_roundtrip_cex :
  let fs := [mkField (PInt 1) (PStr "A"); mkField (PInt 1) (PStr "B")] in
  let w1 := fst (get_field_id_by_label srv_ok "" "" "" sample_pipe_data (PStr "Z")
                   (sample_world fs [])) in
  get_field_id_by_label srv_ok "" "" "" sample_pipe_data (PStr "A") w1 = (w1, Ok (PInt 1)) /\
  snd (get_field_label_by_id srv_ok "" "" "" sample_pipe_data (PInt 1) w1) = Ok (PStr "B").
Proof. split; vm_compute; reflexivity. Qed.

(** C4 (amended). On a Pipe whose phases are loaded and whose cache holds
    only bindings the lookups write, a key that is neither the label nor
    the id of any field makes [get_field_id_by_label] and
    [get_field_label_by_id] return [None] without raising, without any
    transport call, after writing both cache directions of every field of
    every phase exactly once, in order (a single full scan). *)
Theorem lookup_miss_returns_none srv email token base_url pipe_data w ds k :
  loaded w ds ->
  cache_ok (fields_of ds) (w_cache w) = true ->
  is_label (fields_of ds) k = false ->
  is_id (fields_of ds) k = false ->
  get_field_id_by_label srv email token base_url pipe_data k w =
    (set_cache (write_all (fields_of ds) (w_cache w)) w, Ok PNone) /\
  get_field_label_by_id srv email token base_url pipe_data k w =
    (set_cache (write_all (fields_of ds) (w_cache w)) w, Ok PNone).
Proof.
  intros Hl Hok Hlab Hid.
  rewrite (get_field_id_by_label_loaded _ _ _ _ _ w ds k Hl),
          (get_field_label_by_id_loaded _ _ _ _ _ w ds k Hl).
  rewrite (lookup_absent _ _ _ k Hok Hlab Hid).
  2: { intros f Hf. apply pyval_eqb_neq. exact (not_is_label _ _ f Hlab Hf). }
  rewrite (lookup_absent _ _ _ k Hok Hlab Hid).
  2: { intros f Hf. apply pyval_eqb_neq. exact (not_is_id _ _ f Hid Hf). }
  split; reflexivity.
Qed.

Lemma lookup_miss_returns_none_witness :
  get_field_id_by_label srv_ok "" "" "" sample_pipe_data (PStr "Z")
    (sample_world [mkField (PInt 1) (PStr "A")] []) =
    (set_cache (write_all [mkField (PInt 1) (PStr "A")] [])
       (sample_world [mkField (PInt 1) (PStr "A")] []), Ok PNone) /\
  get_field_label_by_id srv_ok "" "" "" sample_pipe_data (PStr "Z")
    (sample_world [mkField (PInt 1) (PStr "A")] []) =
    (set_cache (write_all [mkField (PInt 1) (PStr "A")] [])
       (sample_world [mkField (PInt 1) (PStr "A")] []), Ok PNone).
Proof.
  apply (lookup_miss_returns_none srv_ok "" "" "" sample_pipe_data
           (sample_world [mkField (PInt 1) (PStr "A")] [])
           [mkPhaseJson (PInt 10) [mkField (PInt 1) (PStr "A")] None] (PStr "Z")).
  - exists [0%nat]. split; reflexivity.
  - reflexivity.
  - reflexivity.
  - reflexivity.
Defined.

(** C4, counterexample: the field [1 : "A"]; after a lookup of ["A"] the
    cache holds [1 -> "A"], so looking up the label [1], which no field
    has, returns ["A"] instead of [None]; looking up the id ["A"], which
    no field has, returns [1]. *)
Lemma lookup_miss_returns_none_cex :
  let fs := [mkField (PInt 1) (PStr "A")] in
  let w1 := fst (get_field_id_by_label srv_ok "" "" "" sample_pipe_data (PStr "A")
                   (sample_world fs [])) in
  is_label fs (PInt 1) = false /\ is_id fs (PStr "A") = false /\
  snd (get_field_id_by_label srv_ok "" "" "" sample_pipe_data (PInt 1) w1) = Ok (PStr "A") /\
  snd (get_field_label_by_id srv_ok "" "" "" sample_pipe_data (PStr "A") w1) = Ok (PInt 1).
Proof. vm_compute. repeat split. Qed.

(** C8 (amended). On a Pipe whose phases are loaded and whose cache holds
    only bindings the lookups write, [create_card] does not raise on a
    lookup miss: it sends its POST, whatever the server answers, and for
    every input label that is neither a label nor an id of any field, the
    POSTed [field_values] carries [{field_id: None, value: v}] at that
    label's position. *)
Theorem create_card_unknown_label srv email token base_url pipe_id pipe_data title values
    w ds :
  loaded w ds ->
  cache_ok (fields_of ds) (w_cache w) = true ->
  exists fvs,
    w_log (fst (create_card srv email token base_url pipe_id pipe_data title values w)) =
      w_log w ++
      [mkRequest POST (get_url base_url (create_card_endpoint pipe_id)) (headers email token)
         (Some (mkPayload title fvs))] /\
    map snd fvs = map snd values /\
    (forall i k v, values !! i = Some (k, v) ->
       is_label (fields_of ds) k = false -> is_id (fields_of ds) k = false ->
       fvs !! i = Some (PNone, v)).
Proof.
  intros Hl Hok.
  destruct (build_field_values_loaded srv email token base_url pipe_data values w ds Hl Hok)
    as [c' [fvs [Hb [_ HF]]]].
  exists fvs. rewrite (create_card_log _ _ _ _ pipe_id _ title _ _ _ _ Hb).
  split; [reflexivity|]. split; [exact (field_values_snd _ _ _ HF)|].
  intros i k v Hi Hla Hid.
  destruct (Forall2_lookup_l _ _ _ _ _ HF Hi) as [[a b] [Hfi [Hv [Habs _]]]].
  simpl in Hv, Habs. rewrite Hfi, (Habs (conj Hla Hid)), Hv. reflexivity.
Qed.

(** The label ["Nope"] is neither a label nor an id; the server answers the
    POST with an empty body, so [create_card] then raises a JSON error. *)
Lemma create_card_unknown_label_witness :
  let fs := [mkField (PInt 1) (PStr "A")] in
  let w := sample_world fs [] in
  exists fvs,
    w_log (fst (create_card srv_ok "" "" "" (PInt 5) sample_pipe_data (PStr "t")
                  [(PStr "Nope", PStr "v")] w)) =
      w_log w ++
      [mkRequest POST (get_url "" (create_card_endpoint (PInt 5))) (headers "" "")
         (Some (mkPayload (PStr "t") fvs))] /\
    map snd fvs = map snd [(PStr "Nope", PStr "v")] /\
    (forall i k v, [(PStr "Nope", PStr "v")] !! i = Some (k, v) ->
       is_label fs k = false -> is_id fs k = false -> fvs !! i = Some (PNone, v)).
Proof.
  intros fs w.
  apply (create_card_unknown_label srv_ok "" "" "" (PInt 5) sample_pipe_data (PStr "t")
           [(PStr "Nope", PStr "v")] w [mkPhaseJson (PInt 10) fs None]).
  - exists [0%nat]. split; reflexivity.
  - reflexivity.
Defined.

(** C8, counterexample: with the field [1 : "A"] cached, the input label
    [1] occurs in no field list as a label, yet the POSTed entry is
    [{field_id: "A", value: "v"}], not [{field_id: None, ...}]. *)
Lemma create_card_unknown_label_cex :
  let fs := [mkField (PInt 1) (PStr "A")] in
  is_label fs (PInt 1) = false /\
  w_log (fst (create_card srv_card "" "" "" (PInt 5) sample_pipe_data (PStr "t")
                [(PInt 1, PStr "v")]
                (sample_world fs [(PStr "A", PInt 1); (PInt 1, PStr "A")]))) =
    [mkRequest POST (get_url "" (create_card_endpoint (PInt 5))) (headers "" "")
       (Some (mkPayload (PStr "t") [(PStr "A", PStr "v")]))].
Proof. split; vm_compute; reflexivity. Qed.

(** On a Pipe whose phases are loaded, whose field ids each name one
    label, no label being an id, and whose cache holds only bindings the
    lookups write: for a fetched Card whose field-value ids are field ids
    or no labels, [card.values] sets every historical field value (in
    record order), then every current-phase field value, each under the
    label its id resolves to; so for every label [X] that some current
    field value resolves to, [values[X]] is the last such current value. *)
Theorem card_values_resolved srv email token base_url pipe_data w ds r co :
  loaded w ds ->
  cache_ok (fields_of ds) (w_cache w) = true ->
  uniq_ids (fields_of ds) = true ->
  disjoint (fields_of ds) = true ->
  w_card_heap w !! r = Some co -> co_values co = None ->
  id_query_ok (fields_of ds) (card_pairs (co_data co)) = true ->
  exists w' d,
    card_values srv email token base_url pipe_data r w = (w', Ok d) /\
    d = dict_set_all (resolve_pairs (fields_of ds) (card_pairs (co_data co))) [] /\
    (forall X v,
       last_val_by (fun k => pyval_eqb k X)
         (resolve_pairs (fields_of ds)
            (map (fun fv => (cfv_id fv, cfv_value fv)) (cd_current_field_values (co_data co))))
       = Some v ->
       dict_get X d = Some v).
Proof.
  intros Hl Hok Hu Hd Hr Hv Hq.
  destruct (card_values_loaded srv email token base_url pipe_data ds Hu Hd w r co
              Hl Hok Hr Hv Hq) as [w' Hc].
  eexists w', _. split; [exact Hc|]. split; [reflexivity|].
  intros X v Hlast. rewrite dict_get_set_all.
  unfold card_pairs, resolve_pairs. rewrite map_app, last_val_by_app.
  unfold resolve_pairs in Hlast. rewrite Hlast. reflexivity.
Qed.

(** The documented example: [{field_id: 1, value: "old"}] in the history and
    [{id: 1, value: "new"}] in the current phase, [1] being ["X"]. *)
Lemma card_values_resolved_example :
  exists w' d,
    card_values srv_ok "" "" "" sample_pipe_data 0%nat
      (sample_card_world [mkField (PInt 1) (PStr "X")] []
         (mkCardJson (PInt 7) [[mkHistFv (PInt 1) (PStr "old")]]
            [mkCurFv (PInt 1) (PStr "new")])) = (w', Ok d) /\
    d = dict_set_all (resolve_pairs [mkField (PInt 1) (PStr "X")]
          (card_pairs (mkCardJson (PInt 7) [[mkHistFv (PInt 1) (PStr "old")]]
                         [mkCurFv (PInt 1) (PStr "new")]))) [] /\
    (forall X v,
       last_val_by (fun k => pyval_eqb k X)
         (resolve_pairs [mkField (PInt 1) (PStr "X")]
            (map (fun fv => (cfv_id fv, cfv_value fv)) [mkCurFv (PInt 1) (PStr "new")]))
       = Some v ->
       dict_get X d = Some v).
Proof.
  apply (card_values_resolved srv_ok "" "" "" sample_pipe_data
           (sample_card_world [mkField (PInt 1) (PStr "X")] []
              (mkCardJson (PInt 7) [[mkHistFv (PInt 1) (PStr "old")]]
                 [mkCurFv (PInt 1) (PStr "new")]))
           [mkPhaseJson (PInt 10) [mkField (PInt 1) (PStr "X")] None] 0%nat
           (mkCardObj (PInt 7) (mkCardJson (PInt 7) [[mkHistFv (PInt 1) (PStr "old")]]
                                  [mkCurFv (PInt 1) (PStr "new")]) None)).
  - exists [0%nat]. split; reflexivity.
  - reflexivity.
  - reflexivity.
  - reflexivity.
  - reflexivity.
  - reflexivity.
  - reflexivity.
Defined.

Example card_values_spec_example :
  snd (card_values srv_ok "" "" "" sample_pipe_data 0%nat
         (sample_card_world [mkField (PInt 1) (PStr "X")] []
            (mkCardJson (PInt 7) [[mkHistFv (PInt 1) (PStr "old")]]
               [mkCurFv (PInt 1) (PStr "new")]))) = Ok [(PStr "X", PStr "new")].
Proof. vm_compute. reflexivity. Qed.

(** [get_field_label_by_id] returns [None] exactly on a key that is no
    field id, whatever label it returns for a field id. *)
Lemma lookup_label_none_iff fs c k :
  cache_ok fs c = true -> disjoint fs = true ->
  forallb (fun f => negb (pyval_eqb (f_label f) PNone)) fs = true ->
  (is_id fs k || negb (is_label fs k)) = true ->
  exists v, snd (lookup_pure (fun f => pyval_eqb (f_id f) k) k fs c) = Ok v /\
    pyval_eqb v PNone = negb (is_id fs k).
Proof.
  intros Hok Hd Hn Hq. rewrite forallb_forall in Hn.
  unfold lookup_pure, dict_getitem.
  destruct (dict_mem k c) eqn:Hm.
  - apply dict_mem_get in Hm as [v Hv]. rewrite Hv. exists v. split; [reflexivity|].
    apply dict_get_in in Hv. rewrite cache_ok_spec in Hok.
    destruct (Hok _ _ Hv) as [f [Hf [[Ek Ev]|[Ek <-]]]].
    + assert (Hl : is_label fs k = true) by (apply is_label_spec; eauto).
      rewrite Hl in Hq. simpl in Hq. rewrite orb_false_r in Hq.
      apply is_id_spec in Hq as [g [Hg Eg]].
      exfalso. apply (disjoint_spec fs f g Hd Hf Hg). congruence.
    + assert (Hi : is_id fs k = true) by (apply is_id_spec; eauto).
      rewrite Hi. apply negb_true_iff, Hn, Hf.
  - destruct (scan_fields _ fs c) as [c' []] eqn:Es.
    + apply scan_fields_true in Es as [f [Hf [E [Hid _]]]]. simpl.
      apply pyval_eqb_spec in E. subst k. rewrite Hid. exists (f_label f).
      split; [reflexivity|].
      assert (Hi : is_id fs (f_id f) = true) by (apply is_id_spec; eauto).
      rewrite Hi. apply negb_true_iff, Hn, Hf.
    + exists PNone. split; [reflexivity|]. simpl.
      destruct (is_id fs k) eqn:Hi; [|reflexivity].
      apply is_id_spec in Hi as [f [Hf E]].
      assert (Hs := scan_fields_found (fun f => pyval_eqb (f_id f) k) fs c).
      rewrite Es in Hs. symmetry. apply Hs. exists f.
      split; [exact Hf|]. apply pyval_eqb_spec. exact E.
Qed.

(** The key a field value is stored under is [None] exactly when its id is
    no field id. *)
Definition none_iff_no_id (fs : list field) (kv lv : pyval * pyval) : Prop :=
  snd lv = snd kv /\ pyval_eqb (fst lv) PNone = negb (is_id fs (fst kv)).

Lemma last_val_by_none fs l1 l2 :
  Forall2 (none_iff_no_id fs) l1 l2 ->
  last_val_by (fun k => pyval_eqb k PNone) l2 = last_val_by (fun k => negb (is_id fs k)) l1.
Proof.
  intros HF. induction HF as [|[k v] [k' v'] l1 l2 [Hv Hk] HF IH]; [reflexivity|].
  simpl in *. rewrite IH, Hk, Hv. reflexivity.
Qed.

Section NoneKey.

Variable srv : request -> response.
Variables (email token base_url : string).
Variable pipe_data : pipe_json.
Variable ds : list phase_json.
Hypothesis Hd : disjoint (fields_of ds) = true.
Hypothesis Hn : forallb (fun f => negb (pyval_eqb (f_label f) PNone)) (fields_of ds) = true.

Lemma get_label_none_iff w k :
  loaded w ds -> cache_ok (fields_of ds) (w_cache w) = true ->
  (is_id (fields_of ds) k || negb (is_label (fields_of ds) k)) = true ->
  exists c' v, get_field_label_by_id srv email token base_url pipe_data k w =
               (set_cache c' w, Ok v) /\
             pyval_eqb v PNone = negb (is_id (fields_of ds) k) /\
             cache_ok (fields_of ds) c' = true.
Proof.
  intros Hl Hok Hq. rewrite (get_field_label_by_id_loaded _ _ _ _ _ w ds k Hl).
  destruct (lookup_label_none_iff _ _ _ Hok Hd Hn Hq) as [v [Hr Hv]].
  pose proof (lookup_pure_cache_ok (fun f => pyval_eqb (f_id f) k) k
                (fields_of ds) (w_cache w) Hok) as Hok1.
  destruct (lookup_pure _ k (fields_of ds) (w_cache w)) as [c' r].
  simpl in Hr, Hok1. subst r. eauto.
Qed.

Lemma values_hist_none fvs d w :
  loaded w ds -> cache_ok (fields_of ds) (w_cache w) = true ->
  id_query_ok (fields_of ds) (map (fun fv => (hfv_field_id fv, hfv_value fv)) fvs) = true ->
  exists c' l, values_hist srv email token base_url pipe_data fvs d w =
    (set_cache c' w, Ok (dict_set_all l d)) /\
    cache_ok (fields_of ds) c' = true /\
    Forall2 (none_iff_no_id (fields_of ds))
      (map (fun fv => (hfv_field_id fv, hfv_value fv)) fvs) l.
Proof.
  revert d w. induction fvs as [|fv fvs IH]; intros d w Hl Hok Hq.
  - exists (w_cache w), []. rewrite set_cache_same. auto.
  - simpl in Hq. apply andb_prop in Hq as [Hq1 Hq2].
    destruct (get_label_none_iff w _ Hl Hok Hq1) as [c1 [v [Hg [Hv Hok1]]]].
    cbn [values_hist]. unfold bind at 1. rewrite Hg.
    destruct (IH (dict_set v (hfv_value fv) d) (set_cache c1 w)
                (loaded_set_cache _ _ _ Hl) Hok1 Hq2) as [c2 [l [Hh [Hok2 HF]]]].
    rewrite Hh, set_cache_twice. exists c2, ((v, hfv_value fv) :: l).
    split; [reflexivity|]. split; [exact Hok2|].
    constructor; [split; [reflexivity | exact Hv] | exact HF].
Qed.

Lemma values_details_none pds d w :
  loaded w ds -> cache_ok (fields_of ds) (w_cache w) = true ->
  id_query_ok (fields_of ds)
    (map (fun fv => (hfv_field_id fv, hfv_value fv)) (concat pds)) = true ->
  exists c' l, values_details srv email token base_url pipe_data pds d w =
    (set_cache c' w, Ok (dict_set_all l d)) /\
    cache_ok (fields_of ds) c' = true /\
    Forall2 (none_iff_no_id (fields_of ds))
      (map (fun fv => (hfv_field_id fv, hfv_value fv)) (concat pds)) l.
Proof.
  revert d w. induction pds as [|fvs pds IH]; intros d w Hl Hok Hq.
  - exists (w_cache w), []. rewrite set_cache_same. auto.
  - cbn [concat] in *. rewrite map_app in *. unfold id_query_ok in Hq.
    rewrite forallb_app in Hq. apply andb_prop in Hq as [Hq1 Hq2].
    destruct (values_hist_none fvs d w Hl Hok Hq1) as [c1 [l1 [Hh [Hok1 HF1]]]].
    cbn [values_details]. unfold bind at 1. rewrite Hh.
    destruct (IH (dict_set_all l1 d) (set_cache c1 w) (loaded_set_cache _ _ _ Hl) Hok1 Hq2)
      as [c2 [l2 [Hv [Hok2 HF2]]]].
    rewrite Hv, set_cache_twice. exists c2, (l1 ++ l2).
    rewrite dict_set_all_app. split; [reflexivity|]. split; [exact Hok2|].
    apply Forall2_app; assumption.
Qed.

Lemma values_current_none fvs d w :
  loaded w ds -> cache_ok (fields_of ds) (w_cache w) = true ->
  id_query_ok (fields_of ds) (map (fun fv => (cfv_id fv, cfv_value fv)) fvs) = true ->
  exists c' l, values_current srv email token base_url pipe_data fvs d w =
    (set_cache c' w, Ok (dict_set_all l d)) /\
    cache_ok (fields_of ds) c' = true /\
    Forall2 (none_iff_no_id (fields_of ds))
      (map (fun fv => (cfv_id fv, cfv_value fv)) fvs) l.
Proof.
  revert d w. induction fvs as [|fv fvs IH]; intros d w Hl Hok Hq.
  - exists (w_cache w), []. rewrite set_cache_same. auto.
  - simpl in Hq. apply andb_prop in Hq as [Hq1 Hq2].
    destruct (get_label_none_iff w _ Hl Hok Hq1) as [c1 [v [Hg [Hv Hok1]]]].
    cbn [values_current]. unfold bind at 1. rewrite Hg.
    destruct (IH (dict_set v (cfv_value fv) d) (set_cache c1 w)
                (loaded_set_cache _ _ _ Hl) Hok1 Hq2) as [c2 [l [Hh [Hok2 HF]]]].
    rewrite Hh, set_cache_twice. exists c2, ((v, cfv_value fv) :: l).
    split; [reflexivity|]. split; [exact Hok2|].
    constructor; [split; [reflexivity | exact Hv] | exact HF].
Qed.

Lemma card_values_none w r co :
  loaded w ds -> cache_ok (fields_of ds) (w_cache w) = true ->
  w_card_heap w !! r = Some co -> co_values co = None ->
  id_query_ok (fields_of ds) (card_pairs (co_data co)) = true ->
  exists w' l, card_values srv email token base_url pipe_data r w = (w', Ok (dict_set_all l [])) /\
    Forall2 (none_iff_no_id (fields_of ds)) (card_pairs (co_data co)) l.
Proof.
  intros Hl Hok Hr Hv Hq. unfold card_pairs, id_query_ok in Hq.
  rewrite forallb_app in Hq. apply andb_prop in Hq as [Hq1 Hq2].
  unfold card_values, bind at 1, read_card. rewrite Hr. cbv beta iota. rewrite Hv.
  destruct (values_details_none (cd_other_phase_details (co_data co)) [] w Hl Hok Hq1)
    as [c1 [l1 [H1 [Hok1 HF1]]]].
  unfold bind at 1. rewrite H1.
  destruct (values_current_none (cd_current_field_values (co_data co)) (dict_set_all l1 [])
              (set_cache c1 w) (loaded_set_cache _ _ _ Hl) Hok1 Hq2) as [c2 [l2 [H2 [_ HF2]]]].
  unfold bind at 1. rewrite H2.
  unfold bind, read_card. cbn [w_card_heap set_cache]. rewrite Hr.
  rewrite <- dict_set_all_app. eexists _, (l1 ++ l2). split; [reflexivity|].
  unfold card_pairs. apply Forall2_app; assumption.
Qed.

End NoneKey.

(** C10 (amended). On a Pipe whose phases are loaded, where no field's
    label is a field's id, no field's label is [None], and the cache holds
    only bindings the lookups write: for a fetched Card whose field-value
    ids are field ids or no field labels, [card.values] maps every field
    value whose id is no field id under the single key [None], holding the
    last such value processed (history first, current phase last). *)
Theorem card_values_unresolved_none srv email token base_url pipe_data w ds r co :
  loaded w ds ->
  cache_ok (fields_of ds) (w_cache w) = true ->
  disjoint (fields_of ds) = true ->
  forallb (fun f => negb (pyval_eqb (f_label f) PNone)) (fields_of ds) = true ->
  w_card_heap w !! r = Some co -> co_values co = None ->
  id_query_ok (fields_of ds) (card_pairs (co_data co)) = true ->
  exists w' d,
    card_values srv email token base_url pipe_data r w = (w', Ok d) /\
    dict_get PNone d =
      last_val_by (fun k => negb (is_id (fields_of ds) k)) (card_pairs (co_data co)).
Proof.
  intros Hl Hok Hd Hn Hr Hv Hq.
  destruct (card_values_none srv email token base_url pipe_data ds Hd Hn w r co
              Hl Hok Hr Hv Hq) as [w' [l [Hc HF]]].
  eexists w', _. split; [exact Hc|].
  rewrite dict_get_set_all, (last_val_by_none _ _ _ HF).
  destruct (last_val_by _ _); reflexivity.
Qed.

(** Two fields with the id [1] and the labels ["A"] and ["B"]; the card's
    ids [5] and [6] are no field ids, [1] is one. *)
Lemma card_values_unresolved_none_witness :
  let fs := [mkField (PInt 1) (PStr "A"); mkField (PInt 1) (PStr "B")] in
  let cd := mkCardJson (PInt 7) [[mkHistFv (PInt 5) (PStr "a")]]
              [mkCurFv (PInt 1) (PStr "b"); mkCurFv (PInt 6) (PStr "c")] in
  exists w' d,
    card_values srv_ok "" "" "" sample_pipe_data 0%nat (sample_card_world fs [] cd) =
      (w', Ok d) /\
    dict_get PNone d = last_val_by (fun k => negb (is_id fs k)) (card_pairs cd).
Proof.
  intros fs cd.
  apply (card_values_unresolved_none srv_ok "" "" "" sample_pipe_data
           (sample_card_world fs [] cd) [mkPhaseJson (PInt 10) fs None] 0%nat
           (mkCardObj (PInt 7) cd None)).
  - exists [0%nat]. split; reflexivity.
  - reflexivity.
  - reflexivity.
  - reflexivity.
  - reflexivity.
  - reflexivity.
  - reflexivity.
Defined.

(** C10, counterexample: the field [1 : "A"] and a card whose historical
    and current field values both carry the id ["A"], which is no field
    id.  The first lookup misses ([None]) but caches ["A" -> 1]; the second
    hits it, so the values are [{None: "old", 1: "new"}]: the last
    unresolvable value ["new"] is not under [None]. *)
Lemma card_values_unresolved_none_cex :
  is_id [mkField (PInt 1) (PStr "A")] (PStr "A") = false /\
  snd (card_values srv_ok "" "" "" sample_pipe_data 0%nat
         (sample_card_world [mkField (PInt 1) (PStr "A")] []
            (mkCardJson (PInt 7) [[mkHistFv (PStr "A") (PStr "old")]]
               [mkCurFv (PStr "A") (PStr "new")]))) =
    Ok [(PNone, PStr "old"); (PInt 1, PStr "new")].
Proof. split; vm_compute; reflexivity. Qed.

(** ** Memoization of the [cached_property] slots *)

Lemma read_phase_ok r w s po :
  read_phase r w = (s, Ok po) -> s = w /\ w_phase_heap w !! r = Some po.
Proof. unfold read_phase. destruct (w_phase_heap w !! r); intros H; inversion H; auto. Qed.

Lemma read_card_ok r w s co :
  read_card r w = (s, Ok co) -> s = w /\ w_card_heap w !! r = Some co.
Proof. unfold read_card. destruct (w_card_heap w !! r); intros H; inversion H; auto. Qed.

Lemma write_phase_ok r po w s u :
  write_phase r po w = (s, Ok u) -> s = set_phase_heap (<[r := po]> (w_phase_heap w)) w.
Proof. unfold write_phase, modify. intros H. inversion H. reflexivity. Qed.

Lemma write_card_ok r co w s u :
  write_card r co w = (s, Ok u) -> s = set_card_heap (<[r := co]> (w_card_heap w)) w.
Proof. unfold write_card, modify. intros H. inversion H. reflexivity. Qed.

Lemma read_phase_written r po po0 w :
  w_phase_heap w !! r = Some po0 ->
  read_phase r (set_phase_heap (<[r := po]> (w_phase_heap w)) w) =
    (set_phase_heap (<[r := po]> (w_phase_heap w)) w, Ok po).
Proof.
  intros H. unfold read_phase. simpl. rewrite list_lookup_insert_eq; [reflexivity|].
  eapply lookup_lt_Some. exact H.
Qed.

Lemma read_card_written r co co0 w :
  w_card_heap w !! r = Some co0 ->
  read_card r (set_card_heap (<[r := co]> (w_card_heap w)) w) =
    (set_card_heap (<[r := co]> (w_card_heap w)) w, Ok co).
Proof.
  intros H. unfold read_card. simpl. rewrite list_lookup_insert_eq; [reflexivity|].
  eapply lookup_lt_Some. exact H.
Qed.

Lemma phases_memo srv email token base_url pipe_data w w1 x :
  phases srv email token base_url pipe_data w = (w1, Ok x) ->
  phases srv email token base_url pipe_data w1 = (w1, Ok x).
Proof.
  unfold phases, bind, gets, modify, ret. destruct (w_phases w) eqn:E.
  - intros H. inversion H. subst. rewrite E. reflexivity.
  - destruct (get_phases _ _ _ _ _ w) as [w2 [a|e]]; intros H; inversion H; reflexivity.
Qed.

Lemma pipe_cards_memo srv email token base_url pipe_data w w1 x :
  pipe_cards srv email token base_url pipe_data w = (w1, Ok x) ->
  pipe_cards srv email token base_url pipe_data w1 = (w1, Ok x).
Proof.
  intros H. unfold pipe_cards in H |- *.
  apply bind_ok_inv in H as [s1 [c [Hc H]]]. unfold gets in Hc.
  injection Hc as Hs Hc. subst s1 c.
  destruct (w_cards w) eqn:E.
  - inversion H. subst. unfold bind, gets, ret. rewrite E. reflexivity.
  - apply bind_ok_inv in H as [s2 [ps [_ H]]].
    apply bind_ok_inv in H as [s3 [cards [_ H]]].
    apply bind_ok_inv in H as [s4 [u [Hm H]]].
    unfold modify in Hm. inversion Hm. subst. inversion H. subst. reflexivity.
Qed.

Lemma phase_cards_memo srv email token base_url r w w1 x :
  phase_cards srv email token base_url r w = (w1, Ok x) ->
  phase_cards srv email token base_url r w1 = (w1, Ok x).
Proof.
  intros H. unfold phase_cards in H |- *.
  apply bind_ok_inv in H as [s1 [self [Hr H]]].
  apply read_phase_ok in Hr as [-> Hr].
  destruct (po_cards self) eqn:E.
  - inversion H. subst. unfold bind at 1, read_phase. rewrite Hr, E. reflexivity.
  - apply bind_ok_inv in H as [s2 [u [_ H]]].
    apply bind_ok_inv in H as [s3 [self' [_ H]]].
    apply bind_ok_inv in H as [s4 [stubs [_ H]]].
    apply bind_ok_inv in H as [s5 [cards [_ H]]].
    apply bind_ok_inv in H as [s6 [self'' [Hr6 H]]].
    apply read_phase_ok in Hr6 as [-> Hr6].
    apply bind_ok_inv in H as [s7 [u' [Hw H]]].
    apply write_phase_ok in Hw. subst s7. inversion H. subst.
    rewrite (bind_ok _ _ _ _ _ (read_phase_written _ _ _ _ Hr6)). reflexivity.
Qed.

Lemma card_values_memo srv email token base_url pipe_data r w w1 x :
  card_values srv email token base_url pipe_data r w = (w1, Ok x) ->
  card_values srv email token base_url pipe_data r w1 = (w1, Ok x).
Proof.
  intros H. unfold card_values in H |- *.
  apply bind_ok_inv in H as [s1 [self [Hr H]]].
  apply read_card_ok in Hr as [-> Hr].
  destruct (co_values self) eqn:E.
  - inversion H. subst. unfold bind at 1, read_card. rewrite Hr, E. reflexivity.
  - apply bind_ok_inv in H as [s2 [d1 [_ H]]].
    apply bind_ok_inv in H as [s3 [tv [_ H]]].
    apply bind_ok_inv in H as [s4 [self' [Hr4 H]]].
    apply read_card_ok in Hr4 as [-> Hr4].
    apply bind_ok_inv in H as [s5 [u [Hw H]]].
    apply write_card_ok in Hw. subst s5. inversion H. subst.
    rewrite (bind_ok _ _ _ _ _ (read_card_written _ _ _ _ Hr4)). reflexivity.
Qed.

(** C2 (amended). Once an access to [pipe.phases], [pipe.cards],
    [phase.cards] or [card.values] has returned, a second access returns
    the same result, sends no request and changes nothing (the log, the
    field cache and every object stay as they were). *)
Theorem memo_second_access srv email token base_url pipe_data :
  (forall w w1 x, phases srv email token base_url pipe_data w = (w1, Ok x) ->
     phases srv email token base_url pipe_data w1 = (w1, Ok x)) /\
  (forall w w1 x, pipe_cards srv email token base_url pipe_data w = (w1, Ok x) ->
     pipe_cards srv email token base_url pipe_data w1 = (w1, Ok x)) /\
  (forall r w w1 x, phase_cards srv email token base_url r w = (w1, Ok x) ->
     phase_cards srv email token base_url r w1 = (w1, Ok x)) /\
  (forall r w w1 x, card_values srv email token base_url pipe_data r w = (w1, Ok x) ->
     card_values srv email token base_url pipe_data r w1 = (w1, Ok x)).
Proof.
  split; [|split; [|split]]; intros.
  - eapply phases_memo; eauto.
  - eapply pipe_cards_memo; eauto.
  - eapply phase_cards_memo; eauto.
  - eapply card_values_memo; eauto.
Qed.

(** C2, counterexample: a phase whose ['cards'] list names the card [7]
    twice.  Across two accesses of [phase.cards], [GET /cards/7] is sent
    twice (both by the first access): one remote resource, two fetches. *)
Lemma memo_second_access_cex :
  let w := mkWorld [] [] (Some [0%nat]) None [(PInt 10, 0%nat)]
             [mkPhaseObj (PInt 10) (mkPhaseJson (PInt 10) [] (Some [PInt 7; PInt 7])) None]
             [] in
  let w1 := fst (phase_cards srv_card "" "" "https://api/" 0%nat w) in
  let w2 := fst (phase_cards srv_card "" "" "https://api/" 0%nat w1) in
  count_url (get_url "https://api/" (card_endpoint (PInt 7))) (w_log w2) = 2%nat.
Proof. vm_compute. reflexivity. Qed.

(** ** Propagation of HTTP errors *)

Create HintDb propagates.

Lemma propagates_keep srv {A} (m : ST world A) :
  (forall w, w_log (fst (m w)) = w_log w) -> propagates srv m.
Proof.
  intros Hm w w' x H. pose proof (Hm w) as E. rewrite H in E. simpl in E.
  exists []. rewrite E, app_nil_r. split; [reflexivity|]. intros rq [].
Qed.

Lemma propagates_bind srv {A B} (m : ST world A) (f : A -> ST world B) :
  propagates srv m -> (forall a, propagates srv (f a)) -> propagates srv (bind m f).
Proof.
  intros Hm Hf w w' x. unfold bind. destruct (m w) as [s [a|e]] eqn:E; intros H.
  - destruct (Hm _ _ _ E) as [n1 [H1 P1]]. destruct (Hf _ _ _ _ H) as [n2 [H2 P2]].
    exists (n1 ++ n2). rewrite H2, H1, app_assoc. split; [reflexivity|].
    intros rq Hin Hst. apply in_app_or in Hin as [Hin|Hin].
    + destruct (P1 rq Hin Hst) as [Hx _]. discriminate Hx.
    + destruct (P2 rq Hin Hst) as [Hx Hl]. split; [exact Hx|].
      rewrite last_app, Hl. reflexivity.
  - injection H as <- <-. destruct (Hm _ _ _ E) as [n [H1 P1]].
    exists n. split; [exact H1|]. intros rq Hin Hst.
    destruct (P1 rq Hin Hst) as [Hx Hl]. injection Hx as ->. auto.
Qed.

Lemma propagates_ret srv {A} (a : A) : propagates srv (ret a).
Proof. apply propagates_keep. reflexivity. Qed.

Lemma propagates_gets srv {A} (f : world -> A) : propagates srv (gets f).
Proof. apply propagates_keep. reflexivity. Qed.

Lemma propagates_lift_res srv {A} (r : res A) : propagates srv (lift_res r).
Proof. apply propagates_keep. reflexivity. Qed.

Lemma propagates_modify srv (f : world -> world) :
  (forall w, w_log (f w) = w_log w) -> propagates srv (modify f).
Proof. intros Hf. apply propagates_keep. exact Hf. Qed.

Lemma propagates_alloc_phase srv po : propagates srv (alloc_phase po).
Proof. apply propagates_keep. reflexivity. Qed.

Lemma propagates_alloc_card srv co : propagates srv (alloc_card co).
Proof. apply propagates_keep. reflexivity. Qed.

Lemma propagates_read_phase srv r : propagates srv (read_phase r).
Proof.
  apply propagates_keep. intros w. unfold read_phase. destruct (_ !! r); reflexivity.
Qed.

Lemma propagates_read_card srv r : propagates srv (read_card r).
Proof.
  apply propagates_keep. intros w. unfold read_card. destruct (_ !! r); reflexivity.
Qed.

Lemma propagates_write_phase srv r po : propagates srv (write_phase r po).
Proof. apply propagates_keep. reflexivity. Qed.

Lemma propagates_write_card srv r co : propagates srv (write_card r co).
Proof. apply propagates_keep. reflexivity. Qed.

Lemma propagates_cache_getitem srv k : propagates srv (cache_getitem k).
Proof. apply propagates_keep. reflexivity. Qed.

(** A transport call: the one request it sends raises when it fails. *)
Lemma propagates_http srv email token base_url m endpoint json :
  propagates srv (lift_log (http_request srv email token base_url m endpoint json)).
Proof.
  intros w w' x. unfold lift_log, http_request.
  destruct (raise_for_status _) eqn:E; intros H; injection H as <- <-;
    eexists; (split; [reflexivity|]); intros rq [<-|[]] Hst.
  - split; reflexivity.
  - rewrite Hst in E. discriminate E.
Qed.

#[export] Hint Resolve propagates_ret propagates_gets propagates_lift_res
  propagates_alloc_phase propagates_alloc_card propagates_read_phase propagates_read_card
  propagates_write_phase propagates_write_card propagates_cache_getitem : propagates.
#[export] Hint Extern 1 (propagates _ (modify _)) =>
  apply propagates_modify; reflexivity : propagates.
#[export] Hint Extern 1 (propagates _ (lift_log (client_get _ _ _ _ _))) =>
  apply propagates_http : propagates.
#[export] Hint Extern 1 (propagates _ (lift_log (client_post _ _ _ _ _ _))) =>
  apply propagates_http : propagates.

Ltac propagate :=
  repeat first
    [ solve [eauto with propagates]
    | match goal with |- propagates _ (bind _ _) => apply propagates_bind; [|intros ?] end
    | match goal with |- propagates _ (match ?x with _ => _ end) => destruct x end ].

Section Propagates.
Variable srv : request -> response.
Variables (email token base_url : string) (pipe_id : pyval) (pipe_data : pipe_json).

Lemma scan_phases_propagates h ps : propagates srv (scan_phases h ps).
Proof. induction ps; simpl; propagate. Qed.
#[local] Hint Resolve scan_phases_propagates : propagates.

Lemma get_phase_propagates x : propagates srv (get_phase srv email token base_url x).
Proof. unfold get_phase. propagate. Qed.
#[local] Hint Resolve get_phase_propagates : propagates.

Lemma get_phases_propagates ids : propagates srv (get_phases srv email token base_url ids).
Proof. induction ids; simpl; propagate. Qed.
#[local] Hint Resolve get_phases_propagates : propagates.

Lemma phases_propagates : propagates srv (phases srv email token base_url pipe_data).
Proof. unfold phases. propagate. Qed.
#[local] Hint Resolve phases_propagates : propagates.

Lemma get_field_id_by_label_propagates k :
  propagates srv (get_field_id_by_label srv email token base_url pipe_data k).
Proof. unfold get_field_id_by_label. propagate. Qed.
#[local] Hint Resolve get_field_id_by_label_propagates : propagates.

Lemma get_field_label_by_id_propagates k :
  propagates srv (get_field_label_by_id srv email token base_url pipe_data k).
Proof. unfold get_field_label_by_id. propagate. Qed.
#[local] Hint Resolve get_field_label_by_id_propagates : propagates.

Lemma fetch_cards_propagates stubs :
  propagates srv (fetch_cards srv email token base_url stubs).
Proof. induction stubs; simpl; propagate. Qed.
#[local] Hint Resolve fetch_cards_propagates : propagates.

Lemma phase_cards_propagates r : propagates srv (phase_cards srv email token base_url r).
Proof. unfold phase_cards. propagate. Qed.
#[local] Hint Resolve phase_cards_propagates : propagates.

Lemma collect_cards_propagates ps :
  propagates srv (collect_cards srv email token base_url ps).
Proof. induction ps; simpl; propagate. Qed.
#[local] Hint Resolve collect_cards_propagates : propagates.

Lemma pipe_cards_propagates : propagates srv (pipe_cards srv email token base_url pipe_data).
Proof. unfold pipe_cards. propagate. Qed.

Lemma values_hist_propagates fvs d :
  propagates srv (values_hist srv email token base_url pipe_data fvs d).
Proof. revert d. induction fvs; intros d; simpl; propagate. Qed.
#[local] Hint Resolve values_hist_propagates : propagates.

Lemma values_details_propagates pds d :
  propagates srv (values_details srv email token base_url pipe_data pds d).
Proof. revert d. induction pds; intros d; simpl; propagate. Qed.
#[local] Hint Resolve values_details_propagates : propagates.

Lemma values_current_propagates fvs d :
  propagates srv (values_current srv email token base_url pipe_data fvs d).
Proof. revert d. induction fvs; intros d; simpl; propagate. Qed.
#[local] Hint Resolve values_current_propagates : propagates.

Lemma card_values_propagates r :
  propagates srv (card_values srv email token base_url pipe_data r).
Proof. unfold card_values. propagate. Qed.

Lemma build_field_values_propagates items :
  propagates srv (build_field_values srv email token base_url pipe_data items).
Proof. induction items as [|[k v] items IH]; simpl; propagate. Qed.
#[local] Hint Resolve build_field_values_propagates : propagates.

Lemma create_card_propagates title values :
  propagates srv (create_card srv email token base_url pipe_id pipe_data title values).
Proof. unfold create_card. propagate. Qed.

End Propagates.

(** C6 (amended). When the response to a transport call has a status in
    400..599, [http_request] (under [get], [post], [patch], [put] and
    [delete]) logs the request and raises [HTTPError] with that status;
    [get_pipe] then raises it too, with no Pipe produced.  Every operation
    of a Pipe that makes transport calls ([get_phase], [pipe.phases],
    [pipe.cards], [phase.cards], [card.values], both lookups and
    [create_card]) propagates it: a request of it answered with a status in
    400..599 is the last request it sends, and it raises that [HTTPError]
    without producing a result. *)
Theorem http_error_propagates srv email token base_url pipe_id pipe_data s :
  400 <= s < 600 ->
  (forall m endpoint json log,
     rs_status (srv (mkRequest m (get_url base_url endpoint) (headers email token) json)) = s ->
     http_request srv email token base_url m endpoint json log =
       (log ++ [mkRequest m (get_url base_url endpoint) (headers email token) json],
        Exc (HTTPError s))) /\
  (forall pipe_id' log,
     rs_status (srv (mkRequest GET (get_url base_url (pipe_endpoint pipe_id'))
                       (headers email token) None)) = s ->
     get_pipe srv email token base_url pipe_id' log =
       (log ++ [mkRequest GET (get_url base_url (pipe_endpoint pipe_id'))
                  (headers email token) None],
        Exc (HTTPError s))) /\
  (forall x, propagates srv (get_phase srv email token base_url x)) /\
  propagates srv (phases srv email token base_url pipe_data) /\
  propagates srv (pipe_cards srv email token base_url pipe_data) /\
  (forall r, propagates srv (phase_cards srv email token base_url r)) /\
  (forall r, propagates srv (card_values srv email token base_url pipe_data r)) /\
  (forall k, propagates srv (get_field_id_by_label srv email token base_url pipe_data k)) /\
  (forall k, propagates srv (get_field_label_by_id srv email token base_url pipe_data k)) /\
  (forall title values,
     propagates srv (create_card srv email token base_url pipe_id pipe_data title values)).
Proof.
  intros Hs.
  assert (Hr : forall m endpoint json log,
     rs_status (srv (mkRequest m (get_url base_url endpoint) (headers email token) json)) = s ->
     http_request srv email token base_url m endpoint json log =
       (log ++ [mkRequest m (get_url base_url endpoint) (headers email token) json],
        Exc (HTTPError s))).
  { intros m endpoint json log Hst. unfold http_request. rewrite Hst.
    unfold raise_for_status.
    replace ((400 <=? s) && (s <? 600))%bool with true; [reflexivity|].
    symmetry. apply andb_true_iff. split; [apply Z.leb_le | apply Z.ltb_lt]; lia. }
  split; [exact Hr|]. split.
  { intros pipe_id' log Hst. unfold get_pipe, client_get. apply bind_exc, Hr, Hst. }
  split; [intros; apply get_phase_propagates|].
  split; [apply phases_propagates|].
  split; [apply pipe_cards_propagates|].
  split; [intros; apply phase_cards_propagates|].
  split; [intros; apply card_values_propagates|].
  split; [intros; apply get_field_id_by_label_propagates|].
  split; [intros; apply get_field_label_by_id_propagates|].
  intros; apply create_card_propagates.
Qed.

(** The documented case: every request answered with [500]. *)
Lemma http_error_propagates_witness :
  400 <= 500 < 600 /\
  snd (get_pipe (fun _ => mkResponse 500 BOther) "" "" "https://api/" (PInt 1) []) =
    Exc (HTTPError 500).
Proof.
  split; [lia|].
  rewrite (proj1 (proj2 (http_error_propagates (fun _ => mkResponse 500 BOther) "" ""
                    "https://api/" (PInt 1) sample_pipe_data 500 ltac:(lia))) (PInt 1) [] eq_refl).
  reflexivity.
Defined.

(** C6, counterexample: [raise_for_status] raises for 4xx and 5xx only.  A
    [300] response (not successful) carrying a pipe body makes [get_pipe]
    return a Pipe. *)
Lemma http_error_propagates_cex :
  ~ (200 <= 300 < 300) /\
  snd (get_pipe (fun _ => mkResponse 300 (BPipe (mkPipeJson []))) "" "" "https://api/"
         (PInt 1) []) = Ok (mkPipe (PInt 1) (BPipe (mkPipeJson []))).
Proof. split; [lia | vm_compute; reflexivity]. Qed.

(** ** Growth of the field cache *)

Create HintDb grows.

Lemma cache_sub_refl c : cache_sub c c.
Proof. intros k H. exact H. Qed.

Lemma cache_sub_trans c1 c2 c3 : cache_sub c1 c2 -> cache_sub c2 c3 -> cache_sub c1 c3.
Proof. intros H1 H2 k Hk. apply H2, H1, Hk. Qed.

Lemma grows_keep {A} (m : ST world A) :
  (forall w, w_cache (fst (m w)) = w_cache w) -> grows m.
Proof.
  intros Hm w w' r H. pose proof (Hm w) as E. rewrite H in E. simpl in E.
  rewrite E. apply cache_sub_refl.
Qed.

Lemma grows_bind {A B} (m : ST world A) (f : A -> ST world B) :
  grows m -> (forall a, grows (f a)) -> grows (bind m f).
Proof.
  intros Hm Hf w w' r. unfold bind. destruct (m w) as [s [a|e]] eqn:E; intros H.
  - eapply cache_sub_trans; [eapply Hm; exact E | eapply Hf; exact H].
  - inversion H. subst. eapply Hm. exact E.
Qed.

Lemma grows_ret {A} (a : A) : grows (ret a).
Proof. apply grows_keep. reflexivity. Qed.

Lemma grows_gets {A} (f : world -> A) : grows (gets f).
Proof. apply grows_keep. reflexivity. Qed.

Lemma grows_lift_res {A} (r : res A) : grows (lift_res r).
Proof. apply grows_keep. reflexivity. Qed.

Lemma grows_lift_log {A} (m : ST (list request) A) : grows (lift_log m).
Proof. apply grows_keep. intros w. unfold lift_log. destruct (m (w_log w)). reflexivity. Qed.

Lemma grows_set_lru f : grows (modify (fun w => set_lru (f w) w)).
Proof. apply grows_keep. reflexivity. Qed.

Lemma grows_set_lru' l : grows (modify (set_lru l)).
Proof. apply grows_keep. reflexivity. Qed.

Lemma grows_set_phases p : grows (modify (set_phases p)).
Proof. apply grows_keep. reflexivity. Qed.

Lemma grows_set_cards p : grows (modify (set_cards p)).
Proof. apply grows_keep. reflexivity. Qed.

Lemma grows_alloc_phase po : grows (alloc_phase po).
Proof. apply grows_keep. reflexivity. Qed.

Lemma grows_alloc_card co : grows (alloc_card co).
Proof. apply grows_keep. reflexivity. Qed.

Lemma grows_read_phase r : grows (read_phase r).
Proof. apply grows_keep. intros w. unfold read_phase. destruct (_ !! r); reflexivity. Qed.

Lemma grows_read_card r : grows (read_card r).
Proof. apply grows_keep. intros w. unfold read_card. destruct (_ !! r); reflexivity. Qed.

Lemma grows_write_phase r po : grows (write_phase r po).
Proof. apply grows_keep. reflexivity. Qed.

Lemma grows_write_card r co : grows (write_card r co).
Proof. apply grows_keep. reflexivity. Qed.

Lemma grows_cache_getitem k : grows (cache_getitem k).
Proof. apply grows_keep. reflexivity. Qed.

#[export] Hint Resolve grows_ret grows_gets grows_lift_res grows_lift_log grows_set_lru
  grows_set_lru' grows_set_phases grows_set_cards grows_alloc_phase grows_alloc_card
  grows_read_phase grows_read_card grows_write_phase grows_write_card
  grows_cache_getitem : grows.

Ltac grow :=
  repeat first
    [ solve [eauto with grows]
    | match goal with |- grows (bind _ _) => apply grows_bind; [|intros ?] end
    | match goal with |- grows (match ?x with _ => _ end) => destruct x end ].

Section Growth.
Variable srv : request -> response.
Variables (email token base_url : string) (pipe_id : pyval) (pipe_data : pipe_json).

Lemma scan_phases_grows h ps : grows (scan_phases h ps).
Proof.
  induction ps as [|r ps IH]; [apply grows_ret|]. cbn [scan_phases].
  apply grows_bind; [apply grows_read_phase|intros phase].
  intros w w' res. unfold bind at 1, gets.
  destruct (scan_fields h (pd_fields (po_data phase)) (w_cache w)) as [c' found] eqn:Es.
  unfold bind, modify. intros H.
  assert (Hc : cache_sub (w_cache w) c').
  { intros k Hk. pose proof (scan_fields_mem h (pd_fields (po_data phase)) _ k Hk) as Hm.
    rewrite Es in Hm. exact Hm. }
  destruct found.
  - inversion H. subst. exact Hc.
  - eapply cache_sub_trans; [exact Hc | exact (IH _ _ _ H)].
Qed.
#[local] Hint Resolve scan_phases_grows : grows.

Lemma get_phase_grows x : grows (get_phase srv email token base_url x).
Proof. unfold get_phase. grow. Qed.
#[local] Hint Resolve get_phase_grows : grows.

Lemma get_phases_grows ids : grows (get_phases srv email token base_url ids).
Proof. induction ids; simpl; grow. Qed.
#[local] Hint Resolve get_phases_grows : grows.

Lemma phases_grows : grows (phases srv email token base_url pipe_data).
Proof. unfold phases. grow. Qed.
#[local] Hint Resolve phases_grows : grows.

Lemma get_field_id_by_label_grows label :
  grows (get_field_id_by_label srv email token base_url pipe_data label).
Proof. unfold get_field_id_by_label. grow. Qed.
#[local] Hint Resolve get_field_id_by_label_grows : grows.

Lemma get_field_label_by_id_grows id :
  grows (get_field_label_by_id srv email token base_url pipe_data id).
Proof. unfold get_field_label_by_id. grow. Qed.
#[local] Hint Resolve get_field_label_by_id_grows : grows.

Lemma fetch_cards_grows stubs : grows (fetch_cards srv email token base_url stubs).
Proof. induction stubs; simpl; grow. Qed.
#[local] Hint Resolve fetch_cards_grows : grows.

Lemma phase_cards_grows r : grows (phase_cards srv email token base_url r).
Proof. unfold phase_cards. grow. Qed.
#[local] Hint Resolve phase_cards_grows : grows.

Lemma collect_cards_grows ps : grows (collect_cards srv email token base_url ps).
Proof. induction ps; simpl; grow. Qed.
#[local] Hint Resolve collect_cards_grows : grows.

Lemma pipe_cards_grows : grows (pipe_cards srv email token base_url pipe_data).
Proof. unfold pipe_cards. grow. Qed.
#[local] Hint Resolve pipe_cards_grows : grows.

Lemma values_hist_grows fvs d : grows (values_hist srv email token base_url pipe_data fvs d).
Proof.
  revert d. induction fvs; intros d; simpl; grow.
Qed.
#[local] Hint Resolve values_hist_grows : grows.

Lemma values_details_grows pds d :
  grows (values_details srv email token base_url pipe_data pds d).
Proof.
  revert d. induction pds; intros d; simpl; grow.
Qed.
#[local] Hint Resolve values_details_grows : grows.

Lemma values_current_grows fvs d :
  grows (values_current srv email token base_url pipe_data fvs d).
Proof.
  revert d. induction fvs; intros d; simpl; grow.
Qed.
#[local] Hint Resolve values_current_grows : grows.

Lemma card_values_grows r : grows (card_values srv email token base_url pipe_data r).
Proof.
  unfold card_values. grow.
Qed.
#[local] Hint Resolve card_values_grows : grows.

Lemma build_field_values_grows items :
  grows (build_field_values srv email token base_url pipe_data items).
Proof.
  induction items as [|[k v] items IH]; simpl; grow.
Qed.
#[local] Hint Resolve build_field_values_grows : grows.

Lemma create_card_grows title values :
  grows (create_card srv email token base_url pipe_id pipe_data title values).
Proof. unfold create_card. grow. Qed.

End Growth.

Lemma lookup_hit srv email token base_url pipe_data k w :
  dict_mem k (w_cache w) = true ->
  get_field_id_by_label srv email token base_url pipe_data k w =
    (w, dict_getitem k (w_cache w)) /\
  get_field_label_by_id srv email token base_url pipe_data k w =
    (w, dict_getitem k (w_cache w)).
Proof.
  intros H. unfold get_field_id_by_label, get_field_label_by_id, bind, gets.
  rewrite H. split; reflexivity.
Qed.

(** C7. No operation of a Pipe removes a key from its field cache, whether
    it returns or raises: the lookups, [create_card], [get_phase] and the
    accesses of [pipe.phases], [pipe.cards], [phase.cards] and
    [card.values].  A lookup of a key already in the cache returns the
    cached value and changes nothing: no request, no scan, no write. *)
Theorem field_cache_only_grows srv email token base_url pipe_id pipe_data :
  (forall label, grows (get_field_id_by_label srv email token base_url pipe_data label)) /\
  (forall id, grows (get_field_label_by_id srv email token base_url pipe_data id)) /\
  (forall title values,
     grows (create_card srv email token base_url pipe_id pipe_data title values)) /\
  (forall x, grows (get_phase srv email token base_url x)) /\
  grows (phases srv email token base_url pipe_data) /\
  grows (pipe_cards srv email token base_url pipe_data) /\
  (forall r, grows (phase_cards srv email token base_url r)) /\
  (forall r, grows (card_values srv email token base_url pipe_data r)) /\
  (forall k w, dict_mem k (w_cache w) = true ->
     get_field_id_by_label srv email token base_url pipe_data k w =
       (w, dict_getitem k (w_cache w)) /\
     get_field_label_by_id srv email token base_url pipe_data k w =
       (w, dict_getitem k (w_cache w))).
Proof.
  repeat split; intros.
  - apply get_field_id_by_label_grows.
  - apply get_field_label_by_id_grows.
  - apply create_card_grows.
  - apply get_phase_grows.
  - apply phases_grows.
  - apply pipe_cards_grows.
  - apply phase_cards_grows.
  - apply card_values_grows.
  - apply lookup_hit; assumption.
  - apply lookup_hit; assumption.
Qed.

(** ** One key space for both directions *)

Lemma write_all_writes fs c : write_all fs c = dict_set_all (cache_writes fs) c.
Proof.
  revert c. induction fs as [|f fs IH]; intros c; [reflexivity|].
  unfold write_all, dict_set_all in *. simpl. apply IH.
Qed.

(** C9. The cache is one dict for [label -> id] and [id -> label]: after a
    lookup that scans every field (a key that is no label and no id), each
    key holds the value of the LAST write of that key in the scan, whatever
    its direction; from then on both lookups of a key in the cache return
    that value unchanged.  So when a label of one field is the id of
    another, the later write wins and a lookup in one direction can return
    a value written in the other (see [cache_collision_example]). *)
Theorem cache_collision_last_write srv email token base_url pipe_data w ds miss :
  loaded w ds ->
  cache_ok (fields_of ds) (w_cache w) = true ->
  is_label (fields_of ds) miss = false ->
  is_id (fields_of ds) miss = false ->
  exists w1,
    get_field_id_by_label srv email token base_url pipe_data miss w = (w1, Ok PNone) /\
    (forall k, dict_get k (w_cache w1) =
       match last_val_by (fun k' => pyval_eqb k' k) (cache_writes (fields_of ds)) with
       | Some v => Some v
       | None => dict_get k (w_cache w)
       end) /\
    (forall k, dict_mem k (w_cache w1) = true ->
       get_field_id_by_label srv email token base_url pipe_data k w1 =
         (w1, dict_getitem k (w_cache w1)) /\
       get_field_label_by_id srv email token base_url pipe_data k w1 =
         (w1, dict_getitem k (w_cache w1))).
Proof.
  intros Hl Hok Hlab Hid.
  rewrite (get_field_id_by_label_loaded _ _ _ _ _ w ds miss Hl).
  rewrite (lookup_absent _ _ _ miss Hok Hlab Hid).
  2: { intros f Hf. apply pyval_eqb_neq. exact (not_is_label _ _ f Hlab Hf). }
  eexists. split; [reflexivity|]. split.
  - intros k. cbn [w_cache set_cache]. rewrite write_all_writes. apply dict_get_set_all.
  - intros k Hk. apply lookup_hit. exact Hk.
Qed.

Lemma cache_collision_last_write_witness :
  exists w1,
    get_field_id_by_label srv_ok "" "" "" sample_pipe_data (PStr "Z")
      (sample_world [mkField (PInt 1) (PStr "A"); mkField (PInt 2) (PInt 1)] []) =
      (w1, Ok PNone) /\
    (forall k, dict_get k (w_cache w1) =
       match last_val_by (fun k' => pyval_eqb k' k)
               (cache_writes [mkField (PInt 1) (PStr "A"); mkField (PInt 2) (PInt 1)]) with
       | Some v => Some v
       | None => dict_get k []
       end) /\
    (forall k, dict_mem k (w_cache w1) = true ->
       get_field_id_by_label srv_ok "" "" "" sample_pipe_data k w1 =
         (w1, dict_getitem k (w_cache w1)) /\
       get_field_label_by_id srv_ok "" "" "" sample_pipe_data k w1 =
         (w1, dict_getitem k (w_cache w1))).
Proof.
  apply (cache_collision_last_write srv_ok "" "" "" sample_pipe_data
           (sample_world [mkField (PInt 1) (PStr "A"); mkField (PInt 2) (PInt 1)] [])
           [mkPhaseJson (PInt 10) [mkField (PInt 1) (PStr "A"); mkField (PInt 2) (PInt 1)] None]
           (PStr "Z")).
  - exists [0%nat]. split; reflexivity.
  - reflexivity.
  - reflexivity.
  - reflexivity.
Defined.

(** The fields [1 : "A"] and [2 : 1]: the label [1] of the second field is
    the id of the first.  After a miss, [get_field_label_by_id(1)] returns
    [2], the id written under the label [1], not the label ["A"]. *)
Example cache_collision_example :
  let w := sample_world [mkField (PInt 1) (PStr "A"); mkField (PInt 2) (PInt 1)] [] in
  let w1 := fst (get_field_id_by_label srv_ok "" "" "" sample_pipe_data (PStr "Z") w) in
  snd (get_field_label_by_id srv_ok "" "" "" sample_pipe_data (PInt 1) w1) = Ok (PInt 2).
Proof. vm_compute. reflexivity. Qed.

(** ** The order of the writes of [Card.values] *)

Lemma labels_of_app srv email token base_url pipe_data l1 l2 w w1 w2 a b :
  labels_of srv email token base_url pipe_data l1 w = (w1, Ok a) ->
  labels_of srv email token base_url pipe_data l2 w1 = (w2, Ok b) ->
  labels_of srv email token base_url pipe_data (l1 ++ l2) w = (w2, Ok (a ++ b)).
Proof.
  revert w a. induction l1 as [|k l1 IH]; intros w a H1 H2.
  - cbn [labels_of] in H1. injection H1 as <- <-. exact H2.
  - cbn [labels_of app] in *. apply bind_ok_inv in H1 as [w3 [l [Hg H1]]].
    apply bind_ok_inv in H1 as [w4 [ls [Hl H1]]]. injection H1 as <- <-.
    rewrite (bind_ok _ _ _ _ _ Hg), (bind_ok _ _ _ _ _ (IH _ _ Hl H2)). reflexivity.
Qed.

Lemma values_hist_labels srv email token base_url pipe_data fvs d w w' d' :
  values_hist srv email token base_url pipe_data fvs d w = (w', Ok d') ->
  exists l,
    labels_of srv email token base_url pipe_data (map hfv_field_id fvs) w =
      (w', Ok (map fst l)) /\
    map snd l = map hfv_value fvs /\ d' = dict_set_all l d.
Proof.
  revert d w. induction fvs as [|fv fvs IH]; intros d w H.
  - cbn [values_hist] in H. injection H as <- <-. exists []. auto.
  - cbn [values_hist] in H. apply bind_ok_inv in H as [w1 [label [Hg H]]].
    destruct (IH _ _ H) as [l [Hl [Hv ->]]].
    exists ((label, hfv_value fv) :: l). cbn [labels_of map].
    rewrite (bind_ok _ _ _ _ _ Hg), (bind_ok _ _ _ _ _ Hl).
    split; [reflexivity|]. split; [cbn [fst snd]; congruence | reflexivity].
Qed.

Lemma values_details_labels srv email token base_url pipe_data pds d w w' d' :
  values_details srv email token base_url pipe_data pds d w = (w', Ok d') ->
  exists l,
    labels_of srv email token base_url pipe_data (map hfv_field_id (concat pds)) w =
      (w', Ok (map fst l)) /\
    map snd l = map hfv_value (concat pds) /\ d' = dict_set_all l d.
Proof.
  revert d w. induction pds as [|fvs pds IH]; intros d w H.
  - cbn [values_details] in H. injection H as <- <-. exists []. auto.
  - cbn [values_details] in H. apply bind_ok_inv in H as [w1 [d1 [H1 H]]].
    destruct (values_hist_labels _ _ _ _ _ _ _ _ _ _ H1) as [l1 [Hl1 [Hv1 ->]]].
    destruct (IH _ _ H) as [l2 [Hl2 [Hv2 ->]]].
    exists (l1 ++ l2). cbn [concat]. rewrite !map_app.
    split; [exact (labels_of_app _ _ _ _ _ _ _ _ _ _ _ _ Hl1 Hl2)|].
    split; [congruence|]. symmetry. apply dict_set_all_app.
Qed.

Lemma values_current_labels srv email token base_url pipe_data fvs d w w' d' :
  values_current srv email token base_url pipe_data fvs d w = (w', Ok d') ->
  exists l,
    labels_of srv email token base_url pipe_data (map cfv_id fvs) w = (w', Ok (map fst l)) /\
    map snd l = map cfv_value fvs /\ d' = dict_set_all l d.
Proof.
  revert d w. induction fvs as [|fv fvs IH]; intros d w H.
  - cbn [values_current] in H. injection H as <- <-. exists []. auto.
  - cbn [values_current] in H. apply bind_ok_inv in H as [w1 [label [Hg H]]].
    destruct (IH _ _ H) as [l [Hl [Hv ->]]].
    exists ((label, cfv_value fv) :: l). cbn [labels_of map].
    rewrite (bind_ok _ _ _ _ _ Hg), (bind_ok _ _ _ _ _ Hl).
    split; [reflexivity|]. split; [cbn [fst snd]; congruence | reflexivity].
Qed.

(** C3. Whenever [card.values] is computed for a Card (its slot empty), it
    looks up the label of every historical field value's id (all
    phase-detail records, in record order), then of every current-phase
    field value's id, with [get_field_label_by_id]; the dict it returns
    sets each historical value under the label found for it, and THEN each
    current-phase value under the label found for it.  So for every key
    [X], [values[X]] is the last current-phase value whose id resolved to
    [X] when there is one, whatever historical values resolved to [X], and
    the last historical one otherwise. *)
Theorem card_values_current_wins srv email token base_url pipe_data r w w' co d :
  w_card_heap w !! r = Some co -> co_values co = None ->
  card_values srv email token base_url pipe_data r w = (w', Ok d) ->
  exists w1 w2 lh lc,
    labels_of srv email token base_url pipe_data
      (map hfv_field_id (concat (cd_other_phase_details (co_data co)))) w =
      (w1, Ok (map fst lh)) /\
    labels_of srv email token base_url pipe_data
      (map cfv_id (cd_current_field_values (co_data co))) w1 = (w2, Ok (map fst lc)) /\
    map snd lh = map hfv_value (concat (cd_other_phase_details (co_data co))) /\
    map snd lc = map cfv_value (cd_current_field_values (co_data co)) /\
    d = dict_set_all lc (dict_set_all lh []) /\
    (forall X, dict_get X d =
       match last_val_by (fun k => pyval_eqb k X) lc with
       | Some v => Some v
       | None => last_val_by (fun k => pyval_eqb k X) lh
       end).
Proof.
  intros Hr Hv H. unfold card_values in H.
  rewrite (bind_ok (read_card r) _ w w co) in H
    by (unfold read_card; rewrite Hr; reflexivity).
  rewrite Hv in H.
  apply bind_ok_inv in H as [w1 [d1 [H1 H]]].
  apply bind_ok_inv in H as [w2 [tv [H2 H]]].
  apply bind_ok_inv in H as [w3 [self' [_ H]]].
  apply bind_ok_inv in H as [w4 [u [_ H]]].
  injection H as _ <-.
  destruct (values_details_labels _ _ _ _ _ _ _ _ _ _ H1) as [lh [Hlh [Hvh ->]]].
  destruct (values_current_labels _ _ _ _ _ _ _ _ _ _ H2) as [lc [Hlc [Hvc ->]]].
  exists w1, w2, lh, lc. do 5 (split; [assumption || reflexivity|]).
  intros X. rewrite !dict_get_set_all. destruct (last_val_by _ lc); [reflexivity|].
  destruct (last_val_by _ lh); reflexivity.
Qed.

(** The documented example: [{field_id: 1, value: "old"}] in the history, then
    [{id: 1, value: "new"}] in the current phase, the field [1] being ["X"]. *)
Lemma card_values_current_wins_witness :
  let cd := mkCardJson (PInt 7) [[mkHistFv (PInt 1) (PStr "old")]]
              [mkCurFv (PInt 1) (PStr "new")] in
  let w := sample_card_world [mkField (PInt 1) (PStr "X")] [] cd in
  exists w1 w2 lh lc,
    labels_of srv_ok "" "" "" sample_pipe_data [PInt 1] w = (w1, Ok (map fst lh)) /\
    labels_of srv_ok "" "" "" sample_pipe_data [PInt 1] w1 = (w2, Ok (map fst lc)) /\
    map snd lh = [PStr "old"] /\ map snd lc = [PStr "new"] /\
    [(PStr "X", PStr "new")] = dict_set_all lc (dict_set_all lh []) /\
    (forall X, dict_get X [(PStr "X", PStr "new")] =
       match last_val_by (fun k => pyval_eqb k X) lc with
       | Some v => Some v
       | None => last_val_by (fun k => pyval_eqb k X) lh
       end).
Proof.
  intros cd w.
  apply (card_values_current_wins srv_ok "" "" "" sample_pipe_data 0%nat w
           (fst (card_values srv_ok "" "" "" sample_pipe_data 0%nat w))
           (mkCardObj (PInt 7) cd None) [(PStr "X", PStr "new")]).
  - reflexivity.
  - reflexivity.
  - vm_compute. reflexivity.
Defined.

(** ** Lookups and [card.values] on loaded phases never raise *)

Lemma dict_getitem_some k c v : dict_get k c = Some v -> dict_getitem k c = Ok v.
Proof. unfold dict_getitem. intros ->. reflexivity. Qed.

Lemma dict_getitem_mem k c : dict_mem k c = true -> exists v, dict_getitem k c = Ok v.
Proof. intros H. apply dict_mem_get in H as [v Hv]. exists v. apply dict_getitem_some, Hv. Qed.

Lemma lookup_pure_label_ok k fs c :
  exists v, snd (lookup_pure (fun f => pyval_eqb (f_label f) k) k fs c) = Ok v.
Proof.
  unfold lookup_pure. destruct (dict_mem k c) eqn:Hm; [apply dict_getitem_mem, Hm|].
  destruct (scan_fields _ fs c) as [c' []] eqn:Es; [|eauto].
  apply scan_fields_true in Es as [f [_ [Hh [Hi Hl]]]]. apply pyval_eqb_spec in Hh.
  subst k. simpl. destruct (pyval_eq_dec (f_id f) (f_label f)) as [E|E].
  - rewrite <- E. eexists. apply dict_getitem_some, Hi.
  - eexists. apply dict_getitem_some, Hl, E.
Qed.

Lemma lookup_pure_id_ok k fs c :
  exists v, snd (lookup_pure (fun f => pyval_eqb (f_id f) k) k fs c) = Ok v.
Proof.
  unfold lookup_pure. destruct (dict_mem k c) eqn:Hm; [apply dict_getitem_mem, Hm|].
  destruct (scan_fields _ fs c) as [c' []] eqn:Es; [|eauto].
  apply scan_fields_true in Es as [f [_ [Hh [Hi _]]]]. apply pyval_eqb_spec in Hh.
  subst k. simpl. eexists. apply dict_getitem_some, Hi.
Qed.

Section NoRaise.
Variable srv : request -> response.
Variables (email token base_url : string) (pipe_data : pipe_json) (ds : list phase_json).

Lemma get_field_id_by_label_no_raise w k :
  loaded w ds -> exists c v,
    get_field_id_by_label srv email token base_url pipe_data k w = (set_cache c w, Ok v).
Proof.
  intros Hl. rewrite (get_field_id_by_label_loaded _ _ _ _ _ w ds k Hl).
  destruct (lookup_pure_label_ok k (fields_of ds) (w_cache w)) as [v Hv].
  destruct (lookup_pure _ _ _ _) as [c r]. simpl in Hv. subst r. eauto.
Qed.

Lemma get_field_label_by_id_no_raise w k :
  loaded w ds -> exists c v,
    get_field_label_by_id srv email token base_url pipe_data k w = (set_cache c w, Ok v).
Proof.
  intros Hl. rewrite (get_field_label_by_id_loaded _ _ _ _ _ w ds k Hl).
  destruct (lookup_pure_id_ok k (fields_of ds) (w_cache w)) as [v Hv].
  destruct (lookup_pure _ _ _ _) as [c r]. simpl in Hv. subst r. eauto.
Qed.

Lemma values_hist_no_raise fvs d w :
  loaded w ds -> exists c d',
    values_hist srv email token base_url pipe_data fvs d w = (set_cache c w, Ok d').
Proof.
  revert d w. induction fvs as [|fv fvs IH]; intros d w Hl.
  - exists (w_cache w), d. rewrite set_cache_same. reflexivity.
  - cbn [values_hist]. destruct (get_field_label_by_id_no_raise w (hfv_field_id fv) Hl)
      as [c1 [l Hg]].
    unfold bind at 1. rewrite Hg.
    destruct (IH (dict_set l (hfv_value fv) d) (set_cache c1 w) (loaded_set_cache _ _ _ Hl))
      as [c2 [d2 Hv]].
    rewrite Hv, set_cache_twice. eauto.
Qed.

Lemma values_details_no_raise pds d w :
  loaded w ds -> exists c d',
    values_details srv email token base_url pipe_data pds d w = (set_cache c w, Ok d').
Proof.
  revert d w. induction pds as [|fvs pds IH]; intros d w Hl.
  - exists (w_cache w), d. rewrite set_cache_same. reflexivity.
  - cbn [values_details]. destruct (values_hist_no_raise fvs d w Hl) as [c1 [d1 Hg]].
    unfold bind at 1. rewrite Hg.
    destruct (IH d1 (set_cache c1 w) (loaded_set_cache _ _ _ Hl)) as [c2 [d2 Hv]].
    rewrite Hv, set_cache_twice. eauto.
Qed.

Lemma values_current_no_raise fvs d w :
  loaded w ds -> exists c d',
    values_current srv email token base_url pipe_data fvs d w = (set_cache c w, Ok d').
Proof.
  revert d w. induction fvs as [|fv fvs IH]; intros d w Hl.
  - exists (w_cache w), d. rewrite set_cache_same. reflexivity.
  - cbn [values_current]. destruct (get_field_label_by_id_no_raise w (cfv_id fv) Hl)
      as [c1 [l Hg]].
    unfold bind at 1. rewrite Hg.
    destruct (IH (dict_set l (cfv_value fv) d) (set_cache c1 w) (loaded_set_cache _ _ _ Hl))
      as [c2 [d2 Hv]].
    rewrite Hv, set_cache_twice. eauto.
Qed.

End NoRaise.

(** Once [pipe.phases] is loaded, [get_field_id_by_label] and
    [get_field_label_by_id] never raise (no [KeyError] on a hit after a
    scan), send no request and change nothing but the field cache. *)
Theorem lookups_no_raise srv email token base_url pipe_data w ds k :
  loaded w ds ->
  (exists c v,
     get_field_id_by_label srv email token base_url pipe_data k w = (set_cache c w, Ok v)) /\
  (exists c v,
     get_field_label_by_id srv email token base_url pipe_data k w = (set_cache c w, Ok v)).
Proof.
  intros Hl. split.
  - apply (get_field_id_by_label_no_raise srv email token base_url pipe_data ds w k Hl).
  - apply (get_field_label_by_id_no_raise srv email token base_url pipe_data ds w k Hl).
Qed.

Lemma lookups_no_raise_witness :
  loaded (sample_world [mkField (PInt 1) (PStr "A")] [])
    [mkPhaseJson (PInt 10) [mkField (PInt 1) (PStr "A")] None] /\
  (exists c v,
     get_field_id_by_label srv_ok "" "" "" sample_pipe_data (PStr "A")
       (sample_world [mkField (PInt 1) (PStr "A")] []) =
       (set_cache c (sample_world [mkField (PInt 1) (PStr "A")] []), Ok v)) /\
  (exists c v,
     get_field_label_by_id srv_ok "" "" "" sample_pipe_data (PStr "A")
       (sample_world [mkField (PInt 1) (PStr "A")] []) =
       (set_cache c (sample_world [mkField (PInt 1) (PStr "A")] []), Ok v)).
Proof.
  assert (Hl : loaded (sample_world [mkField (PInt 1) (PStr "A")] [])
                 [mkPhaseJson (PInt 10) [mkField (PInt 1) (PStr "A")] None])
    by (exists [0%nat]; split; reflexivity).
  split; [exact Hl|].
  exact (lookups_no_raise srv_ok "" "" "" sample_pipe_data _ _ (PStr "A") Hl).
Defined.

(** Once [pipe.phases] is loaded, computing [card.values] for a Card never
    raises and sends no request: it changes the field cache and stores the
    values in the Card's slot, nothing else. *)
Theorem card_values_no_raise srv email token base_url pipe_data w ds r co :
  loaded w ds -> w_card_heap w !! r = Some co -> co_values co = None ->
  exists c d,
    card_values srv email token base_url pipe_data r w =
      (set_card_heap (<[r := mkCardObj (co_identifier co) (co_data co) (Some d)]>
                        (w_card_heap w)) (set_cache c w), Ok d).
Proof.
  intros Hl Hr Hv. unfold card_values.
  rewrite (bind_ok (read_card r) _ w w co) by (unfold read_card; rewrite Hr; reflexivity).
  rewrite Hv.
  destruct (values_details_no_raise srv email token base_url pipe_data ds
              (cd_other_phase_details (co_data co)) [] w Hl) as [c1 [d1 H1]].
  rewrite (bind_ok _ _ _ _ _ H1).
  destruct (values_current_no_raise srv email token base_url pipe_data ds
              (cd_current_field_values (co_data co)) d1 (set_cache c1 w)
              (loaded_set_cache _ _ _ Hl)) as [c2 [d2 H2]].
  rewrite set_cache_twice in H2. rewrite (bind_ok _ _ _ _ _ H2).
  exists c2, d2. unfold bind, read_card, write_card, modify, ret. simpl.
  rewrite Hr. reflexivity.
Qed.

Lemma card_values_no_raise_witness :
  loaded (sample_card_world [mkField (PInt 1) (PStr "X")] []
            (mkCardJson (PInt 7) [[mkHistFv (PInt 5) (PStr "a")]] [mkCurFv (PInt 1) (PStr "b")]))
    [mkPhaseJson (PInt 10) [mkField (PInt 1) (PStr "X")] None] /\
  exists c d,
    card_values srv_ok "" "" "" sample_pipe_data 0%nat
      (sample_card_world [mkField (PInt 1) (PStr "X")] []
         (mkCardJson (PInt 7) [[mkHistFv (PInt 5) (PStr "a")]] [mkCurFv (PInt 1) (PStr "b")])) =
      (set_card_heap [mkCardObj (PInt 7)
                        (mkCardJson (PInt 7) [[mkHistFv (PInt 5) (PStr "a")]]
                           [mkCurFv (PInt 1) (PStr "b")]) (Some d)]
         (set_cache c (sample_card_world [mkField (PInt 1) (PStr "X")] []
            (mkCardJson (PInt 7) [[mkHistFv (PInt 5) (PStr "a")]]
               [mkCurFv (PInt 1) (PStr "b")]))), Ok d).
Proof.
  assert (Hl : loaded (sample_card_world [mkField (PInt 1) (PStr "X")] []
            (mkCardJson (PInt 7) [[mkHistFv (PInt 5) (PStr "a")]] [mkCurFv (PInt 1) (PStr "b")]))
    [mkPhaseJson (PInt 10) [mkField (PInt 1) (PStr "X")] None])
    by (exists [0%nat]; split; reflexivity).
  split; [exact Hl|].
  exact (card_values_no_raise srv_ok "" "" "" sample_pipe_data _ _ 0%nat
           (mkCardObj (PInt 7) (mkCardJson (PInt 7) [[mkHistFv (PInt 5) (PStr "a")]]
                                  [mkCurFv (PInt 1) (PStr "b")]) None) Hl eq_refl eq_refl).
Defined.

(** ** The requests sent *)

Create HintDb sends.

Lemma sends_keep P {A} (m : ST world A) :
  (forall w, w_log (fst (m w)) = w_log w) -> sends P m.
Proof.
  intros Hm w w' r H. pose proof (Hm w) as E. rewrite H in E. simpl in E.
  exists []. rewrite E, app_nil_r. split; [reflexivity | constructor].
Qed.

Lemma sends_bind P {A B} (m : ST world A) (f : A -> ST world B) :
  sends P m -> (forall a, sends P (f a)) -> sends P (bind m f).
Proof.
  intros Hm Hf w w' r. unfold bind. destruct (m w) as [s [a|e]] eqn:E; intros H.
  - destruct (Hm _ _ _ E) as [n1 [H1 F1]]. destruct (Hf _ _ _ _ H) as [n2 [H2 F2]].
    exists (n1 ++ n2). rewrite H2, H1, app_assoc. split; [reflexivity|].
    apply Forall_app. auto.
  - inversion H. subst. eapply Hm. exact E.
Qed.

Lemma sends_ret P {A} (a : A) : sends P (ret a).
Proof. apply sends_keep. reflexivity. Qed.

Lemma sends_gets P {A} (f : world -> A) : sends P (gets f).
Proof. apply sends_keep. reflexivity. Qed.

Lemma sends_lift_res P {A} (r : res A) : sends P (lift_res r).
Proof. apply sends_keep. reflexivity. Qed.

Lemma sends_modify P (f : world -> world) :
  (forall w, w_log (f w) = w_log w) -> sends P (modify f).
Proof. intros Hf. apply sends_keep. exact Hf. Qed.

Lemma sends_alloc_phase P po : sends P (alloc_phase po).
Proof. apply sends_keep. reflexivity. Qed.

Lemma sends_alloc_card P co : sends P (alloc_card co).
Proof. apply sends_keep. reflexivity. Qed.

Lemma sends_read_phase P r : sends P (read_phase r).
Proof. apply sends_keep. intros w. unfold read_phase. destruct (_ !! r); reflexivity. Qed.

Lemma sends_read_card P r : sends P (read_card r).
Proof. apply sends_keep. intros w. unfold read_card. destruct (_ !! r); reflexivity. Qed.

Lemma sends_write_phase P r po : sends P (write_phase r po).
Proof. apply sends_keep. reflexivity. Qed.

Lemma sends_write_card P r co : sends P (write_card r co).
Proof. apply sends_keep. reflexivity. Qed.

Lemma sends_cache_getitem P k : sends P (cache_getitem k).
Proof. apply sends_keep. reflexivity. Qed.

Lemma http_request_log srv email token base_url m endpoint json log log' r :
  http_request srv email token base_url m endpoint json log = (log', r) ->
  log' = log ++ [mkRequest m (get_url base_url endpoint) (headers email token) json].
Proof.
  unfold http_request. destruct (raise_for_status _); intros H; inversion H; reflexivity.
Qed.

Lemma sends_http P srv email token base_url m endpoint json :
  P (mkRequest m (get_url base_url endpoint) (headers email token) json) ->
  sends P (lift_log (http_request srv email token base_url m endpoint json)).
Proof.
  intros HP w w' r. unfold lift_log.
  destruct (http_request _ _ _ _ _ _ _ (w_log w)) as [l res] eqn:E. intros H.
  inversion H. subst. apply http_request_log in E. subst l.
  eexists. split; [reflexivity|]. repeat constructor. exact HP.
Qed.

#[export] Hint Resolve sends_ret sends_gets sends_lift_res sends_alloc_phase sends_alloc_card
  sends_read_phase sends_read_card sends_write_phase sends_write_card
  sends_cache_getitem : sends.
#[export] Hint Extern 1 (sends _ (modify _)) => apply sends_modify; reflexivity : sends.
#[export] Hint Extern 1 (sends _ (lift_log (client_get _ _ _ _ _))) =>
  apply sends_http; auto : sends.
#[export] Hint Extern 1 (sends _ (lift_log (client_post _ _ _ _ _ _))) =>
  apply sends_http; auto : sends.

Ltac send :=
  repeat first
    [ solve [eauto with sends]
    | match goal with |- sends _ (bind _ _) => apply sends_bind; [|intros ?] end
    | match goal with |- sends _ (match ?x with _ => _ end) => destruct x end ].

Section Sends.
Variable srv : request -> response.
Variables (email token base_url : string) (pipe_id : pyval) (pipe_data : pipe_json).
Variable P : request -> Prop.
Hypothesis HGet : forall endpoint,
  P (mkRequest GET (get_url base_url endpoint) (headers email token) None).
#[local] Hint Resolve HGet : sends.

Lemma scan_phases_sends h ps : sends P (scan_phases h ps).
Proof. induction ps; simpl; send. Qed.
#[local] Hint Resolve scan_phases_sends : sends.

Lemma get_phase_sends x : sends P (get_phase srv email token base_url x).
Proof. unfold get_phase. send. Qed.
#[local] Hint Resolve get_phase_sends : sends.

Lemma get_phases_sends ids : sends P (get_phases srv email token base_url ids).
Proof. induction ids; simpl; send. Qed.
#[local] Hint Resolve get_phases_sends : sends.

Lemma phases_sends : sends P (phases srv email token base_url pipe_data).
Proof. unfold phases. send. Qed.
#[local] Hint Resolve phases_sends : sends.

Lemma get_field_id_by_label_sends k :
  sends P (get_field_id_by_label srv email token base_url pipe_data k).
Proof. unfold get_field_id_by_label. send. Qed.
#[local] Hint Resolve get_field_id_by_label_sends : sends.

Lemma get_field_label_by_id_sends k :
  sends P (get_field_label_by_id srv email token base_url pipe_data k).
Proof. unfold get_field_label_by_id. send. Qed.
#[local] Hint Resolve get_field_label_by_id_sends : sends.

Lemma fetch_cards_sends stubs : sends P (fetch_cards srv email token base_url stubs).
Proof. induction stubs; simpl; send. Qed.
#[local] Hint Resolve fetch_cards_sends : sends.

Lemma phase_cards_sends r : sends P (phase_cards srv email token base_url r).
Proof. unfold phase_cards. send. Qed.
#[local] Hint Resolve phase_cards_sends : sends.

Lemma collect_cards_sends ps : sends P (collect_cards srv email token base_url ps).
Proof. induction ps; simpl; send. Qed.
#[local] Hint Resolve collect_cards_sends : sends.

Lemma pipe_cards_sends : sends P (pipe_cards srv email token base_url pipe_data).
Proof. unfold pipe_cards. send. Qed.

Lemma values_hist_sends fvs d :
  sends P (values_hist srv email token base_url pipe_data fvs d).
Proof. revert d. induction fvs; intros d; simpl; send. Qed.
#[local] Hint Resolve values_hist_sends : sends.

Lemma values_details_sends pds d :
  sends P (values_details srv email token base_url pipe_data pds d).
Proof. revert d. induction pds; intros d; simpl; send. Qed.
#[local] Hint Resolve values_details_sends : sends.

Lemma values_current_sends fvs d :
  sends P (values_current srv email token base_url pipe_data fvs d).
Proof. revert d. induction fvs; intros d; simpl; send. Qed.
#[local] Hint Resolve values_current_sends : sends.

Lemma card_values_sends r : sends P (card_values srv email token base_url pipe_data r).
Proof. unfold card_values. send. Qed.

Lemma build_field_values_sends items :
  sends P (build_field_values srv email token base_url pipe_data items).
Proof. induction items as [|[k v] items IH]; simpl; send. Qed.
#[local] Hint Resolve build_field_values_sends : sends.

Lemma create_card_sends title values :
  (forall endpoint d,
     P (mkRequest POST (get_url base_url endpoint) (headers email token) (Some d))) ->
  sends P (create_card srv email token base_url pipe_id pipe_data title values).
Proof. intros HPost. unfold create_card. send. Qed.

End Sends.

(** Every operation of a Pipe (the lookups, [create_card], [get_phase],
    [pipe.phases], [pipe.cards], [phase.cards] and [card.values]), whether it
    returns or raises, only appends requests to the log, and every request
    it sends goes to [get_url(endpoint)] for some endpoint and carries the
    headers [{X-User-Email: email, X-User-Token: token}]. *)
Theorem requests_authenticated srv email token base_url pipe_id pipe_data :
  let P := fun rq => rq_headers rq = [("X-User-Email", email); ("X-User-Token", token)] /\
                     exists endpoint, rq_url rq = get_url base_url endpoint in
  (forall k, sends P (get_field_id_by_label srv email token base_url pipe_data k)) /\
  (forall k, sends P (get_field_label_by_id srv email token base_url pipe_data k)) /\
  (forall title values,
     sends P (create_card srv email token base_url pipe_id pipe_data title values)) /\
  (forall x, sends P (get_phase srv email token base_url x)) /\
  sends P (phases srv email token base_url pipe_data) /\
  sends P (pipe_cards srv email token base_url pipe_data) /\
  (forall r, sends P (phase_cards srv email token base_url r)) /\
  (forall r, sends P (card_values srv email token base_url pipe_data r)).
Proof.
  intros P.
  assert (HG : forall m endpoint json,
             P (mkRequest m (get_url base_url endpoint) (headers email token) json))
    by (intros; split; [reflexivity | eexists; reflexivity]).
  repeat split; intros.
  - apply get_field_id_by_label_sends; auto.
  - apply get_field_label_by_id_sends; auto.
  - apply create_card_sends; auto.
  - apply get_phase_sends; auto.
  - apply phases_sends; auto.
  - apply pipe_cards_sends; auto.
  - apply phase_cards_sends; auto.
  - apply card_values_sends; auto.
Qed.

(** The read operations (the lookups, [get_phase], [pipe.phases],
    [pipe.cards], [phase.cards] and [card.values]) send only GET requests
    without a JSON body: they never modify anything on the remote side. *)
Theorem reads_only_get srv email token base_url pipe_data :
  let P := fun rq => rq_method rq = GET /\ rq_json rq = None in
  (forall k, sends P (get_field_id_by_label srv email token base_url pipe_data k)) /\
  (forall k, sends P (get_field_label_by_id srv email token base_url pipe_data k)) /\
  (forall x, sends P (get_phase srv email token base_url x)) /\
  sends P (phases srv email token base_url pipe_data) /\
  sends P (pipe_cards srv email token base_url pipe_data) /\
  (forall r, sends P (phase_cards srv email token base_url r)) /\
  (forall r, sends P (card_values srv email token base_url pipe_data r)).
Proof.
  intros P.
  assert (HG : forall endpoint,
             P (mkRequest GET (get_url base_url endpoint) (headers email token) None))
    by (intros; split; reflexivity).
  repeat split; intros.
  - apply get_field_id_by_label_sends; auto.
  - apply get_field_label_by_id_sends; auto.
  - apply get_phase_sends; auto.
  - apply phases_sends; auto.
  - apply pipe_cards_sends; auto.
  - apply phase_cards_sends; auto.
  - apply card_values_sends; auto.
Qed.

(** ** [get_phase] and [pipe.phases] *)

Lemma lru_find_in x r l : lru_find x l = Some r -> In (x, r) l.
Proof.
  induction l as [|[k s] l IH]; simpl; [discriminate|].
  destruct (pyval_eqb k x) eqn:E.
  - intros [= <-]. apply pyval_eqb_spec in E. subst. left. reflexivity.
  - intros H. right. apply IH, H.
Qed.

Lemma in_take_in {A} (a : A) n l : In a (take n l) -> In a l.
Proof.
  revert n. induction l as [|b l IH]; intros n; destruct n; simpl; try tauto.
  intros [H|H]; [left; exact H | right; eapply IH; exact H].
Qed.

Lemma lru_find_touch x r l : lru_find x (lru_touch x r l) = Some r.
Proof. simpl. rewrite pyval_eqb_refl. reflexivity. Qed.

Lemma lru_find_add x r l : lru_find x (lru_add x r l) = Some r.
Proof. unfold lru_add, lru_maxsize. simpl. rewrite pyval_eqb_refl. reflexivity. Qed.

Lemma heap_ext_lookup (h ext : list phase_obj) r x :
  option_map po_identifier (h !! r) = Some x ->
  option_map po_identifier ((h ++ ext) !! r) = Some x.
Proof.
  destruct (h !! r) eqn:E; [|discriminate]. rewrite (lookup_app_l_Some _ _ _ _ E). auto.
Qed.

Section GetPhase.
Variable srv : request -> response.
Variables (email token base_url : string).

(** The shape of one [get_phase] call: a hit moves the entry to the front,
    a miss sends [GET /phases/{id}.json], appends a Phase and adds it. *)
Lemma get_phase_cases x w w' r :
  get_phase srv email token base_url x w = (w', Ok r) ->
  (lru_find x (w_lru w) = Some r /\ w' = set_lru (lru_touch x r (w_lru w)) w) \/
  (lru_find x (w_lru w) = None /\ exists l d,
     client_get srv email token base_url (phase_endpoint x) (w_log w) = (l, Ok d) /\
     exists pd, json_phase d = Ok pd /\ r = length (w_phase_heap w) /\
     w' = set_lru (lru_add x r (w_lru w))
            (set_phase_heap (w_phase_heap w ++ [mkPhaseObj x pd None]) (set_log l w))).
Proof.
  unfold get_phase. unfold bind at 1, gets. destruct (lru_find x (w_lru w)) as [s|] eqn:E.
  - unfold bind, modify, ret. intros H. inversion H. subst. left. auto.
  - intros H. right. split; [reflexivity|].
    apply bind_ok_inv in H as [w1 [d [H1 H]]]. unfold lift_log in H1.
    destruct (client_get _ _ _ _ _ (w_log w)) as [l [d'|e]] eqn:Ec; inversion H1; subst.
    exists l, d. split; [first [assumption | reflexivity]|].
    apply bind_ok_inv in H as [w2 [pd [H2 H]]]. unfold lift_res in H2. inversion H2. subst.
    exists pd. split; [assumption|].
    apply bind_ok_inv in H as [w3 [r' [H3 H]]]. unfold alloc_phase in H3. inversion H3. subst.
    unfold bind, modify, ret in H. inversion H. subst. split; reflexivity.
Qed.

Lemma get_phase_ok x w w' r :
  lru_ok w -> get_phase srv email token base_url x w = (w', Ok r) ->
  lru_ok w' /\ (exists ext, w_phase_heap w' = w_phase_heap w ++ ext) /\
  option_map po_identifier (w_phase_heap w' !! r) = Some x.
Proof.
  intros Hok H. apply get_phase_cases in H as [[Hf ->]|[Hf [l [d [_ [pd [_ [-> ->]]]]]]]].
  - split; [|split; [exists []; rewrite app_nil_r; reflexivity|]].
    + intros y s Hin. simpl in Hin. destruct Hin as [Hin|Hin].
      * inversion Hin. subst. apply Hok, lru_find_in, Hf.
      * apply list_elem_of_In, list_elem_of_filter in Hin as [_ Hin].
        apply Hok, list_elem_of_In, Hin.
    + apply Hok, lru_find_in, Hf.
  - simpl. split; [|split; [eexists; reflexivity|]].
    + intros y s Hin. simpl in Hin. destruct Hin as [Hin|Hin].
      * inversion Hin. subst. cbn [w_phase_heap set_lru set_phase_heap].
        rewrite list_lookup_middle by reflexivity. reflexivity.
      * apply heap_ext_lookup, Hok. eapply in_take_in. exact Hin.
    + cbn [w_phase_heap set_lru set_phase_heap].
      rewrite list_lookup_middle by reflexivity. reflexivity.
Qed.

Lemma get_phases_ok ids w w' rs :
  lru_ok w -> get_phases srv email token base_url ids w = (w', Ok rs) ->
  lru_ok w' /\ (exists ext, w_phase_heap w' = w_phase_heap w ++ ext) /\
  map (fun r => option_map po_identifier (w_phase_heap w' !! r)) rs = map Some ids.
Proof.
  revert w rs. induction ids as [|x ids IH]; intros w rs Hok H.
  - inversion H. subst. split; [exact Hok|]. split; [exists []; symmetry; apply app_nil_r | reflexivity].
  - cbn [get_phases] in H. apply bind_ok_inv in H as [w1 [r [H1 H]]].
    apply bind_ok_inv in H as [w2 [rs' [H2 H]]]. inversion H. subst.
    destruct (get_phase_ok _ _ _ _ Hok H1) as [Hok1 [[e1 He1] Hr1]].
    destruct (IH _ _ Hok1 H2) as [Hok2 [[e2 He2] Hm]].
    split; [exact Hok2|]. split; [exists (e1 ++ e2); rewrite He2, He1, app_assoc; reflexivity|].
    simpl. rewrite Hm, He2. rewrite (heap_ext_lookup _ _ _ _ Hr1). reflexivity.
Qed.

End GetPhase.

(** [get_phase] under its [lru_cache]: once [get_phase(x)] has returned a
    Phase, calling it again with [x] returns the same Phase object, sends no
    request and only moves [x] to the front of the cache. *)
Theorem get_phase_memo srv email token base_url x w w1 r :
  get_phase srv email token base_url x w = (w1, Ok r) ->
  get_phase srv email token base_url x w1 = (set_lru (lru_touch x r (w_lru w1)) w1, Ok r).
Proof.
  intros H.
  assert (Hf : lru_find x (w_lru w1) = Some r).
  { apply get_phase_cases in H as [[_ ->]|[_ [l [d [_ [pd [_ [_ ->]]]]]]]].
    - apply lru_find_touch.
    - apply lru_find_add. }
  unfold get_phase. unfold bind at 1, gets. rewrite Hf. reflexivity.
Qed.

Lemma get_phase_memo_witness :
  get_phase (fun _ => mkResponse 200 (BPhase (mkPhaseJson (PInt 10) [] None))) "" ""
    "https://api/" (PInt 10)
    (fst (get_phase (fun _ => mkResponse 200 (BPhase (mkPhaseJson (PInt 10) [] None))) ""
            "" "https://api/" (PInt 10) (mkWorld [] [] None None [] [] []))) =
  (set_lru (lru_touch (PInt 10) 0%nat
     (w_lru (fst (get_phase (fun _ => mkResponse 200 (BPhase (mkPhaseJson (PInt 10) [] None)))
                   "" "" "https://api/" (PInt 10) (mkWorld [] [] None None [] [] [])))))
     (fst (get_phase (fun _ => mkResponse 200 (BPhase (mkPhaseJson (PInt 10) [] None))) ""
             "" "https://api/" (PInt 10) (mkWorld [] [] None None [] [] []))), Ok 0%nat).
Proof.
  apply (get_phase_memo (fun _ => mkResponse 200 (BPhase (mkPhaseJson (PInt 10) [] None)))
           "" "" "https://api/" (PInt 10) (mkWorld [] [] None None [] [] [])).
  vm_compute. reflexivity.
Defined.

(** [pipe.phases], computed from a consistent [lru_cache], lists one Phase
    per entry of [data['phases']], in order, each with that entry's id as
    its [identifier]; the list is stored in the slot and the cache stays
    consistent. *)
Theorem phases_identifiers srv email token base_url pipe_data w w' rs :
  lru_ok w -> w_phases w = None ->
  phases srv email token base_url pipe_data w = (w', Ok rs) ->
  w_phases w' = Some rs /\
  map (fun r => option_map po_identifier (w_phase_heap w' !! r)) rs =
    map Some (pj_phases pipe_data) /\
  lru_ok w'.
Proof.
  intros Hok Hn H. unfold phases in H. unfold bind at 1, gets in H. rewrite Hn in H.
  apply bind_ok_inv in H as [w1 [rs1 [H1 H]]].
  unfold bind, modify, ret in H. inversion H. subst.
  destruct (get_phases_ok _ _ _ _ _ _ _ _ Hok H1) as [Hok1 [_ Hm]].
  split; [reflexivity|]. split; [exact Hm | exact Hok1].
Qed.

(** A pipe listing the phases [10], [20] and [10] again: three entries,
    the third being the first Phase object, from the cache. *)
Lemma phases_identifiers_witness :
  let srv := fun rq : request => mkResponse 200 (BPhase (mkPhaseJson (PInt 0) [] None)) in
  let w := mkWorld [] [] None None [] [] [] in
  let pd := mkPipeJson [PInt 10; PInt 20; PInt 10] in
  lru_ok w /\ w_phases w = None /\
  phases srv "" "" "https://api/" pd w = (fst (phases srv "" "" "https://api/" pd w), Ok [0; 1; 0]%nat) /\
  (w_phases (fst (phases srv "" "" "https://api/" pd w)) = Some [0; 1; 0]%nat /\
   map (fun r => option_map po_identifier
                   (w_phase_heap (fst (phases srv "" "" "https://api/" pd w)) !! r)) [0; 1; 0]%nat =
     map Some (pj_phases pd) /\
   lru_ok (fst (phases srv "" "" "https://api/" pd w))).
Proof.
  intros srv w pd.
  assert (Hok : lru_ok w) by (intros x r []).
  assert (Hp : phases srv "" "" "https://api/" pd w =
               (fst (phases srv "" "" "https://api/" pd w), Ok [0; 1; 0]%nat))
    by (vm_compute; reflexivity).
  split; [exact Hok|]. split; [reflexivity|]. split; [exact Hp|].
  exact (phases_identifiers srv "" "" "https://api/" pd w _ _ Hok eq_refl Hp).
Defined.

(** ** [phase.cards] *)

Lemma card_ext_lookup (h ext : list card_obj) r x :
  option_map co_identifier (h !! r) = Some x ->
  option_map co_identifier ((h ++ ext) !! r) = Some x.
Proof.
  destruct (h !! r) eqn:E; [|discriminate]. rewrite (lookup_app_l_Some _ _ _ _ E). auto.
Qed.

Section PhaseCards.
Variable srv : request -> response.
Variables (email token base_url : string).

Lemma lift_get_ok endpoint w w1 d :
  lift_log (client_get srv email token base_url endpoint) w = (w1, Ok d) ->
  w1 = set_log (w_log w ++ [get_request email token base_url endpoint]) w.
Proof.
  unfold lift_log. destruct (client_get _ _ _ _ _ (w_log w)) as [l r] eqn:E.
  intros H. inversion H. subst. apply http_request_log in E. subst. reflexivity.
Qed.

Lemma fetch_cards_ok stubs w w' cs :
  fetch_cards srv email token base_url stubs w = (w', Ok cs) ->
  w_log w' = w_log w ++ map (fun i => get_request email token base_url (card_endpoint i)) stubs /\
  w_phase_heap w' = w_phase_heap w /\
  (exists ext, w_card_heap w' = w_card_heap w ++ ext) /\
  map (fun c => option_map co_identifier (w_card_heap w' !! c)) cs = map Some stubs.
Proof.
  revert w cs. induction stubs as [|i stubs IH]; intros w cs H.
  - inversion H. subst. split; [symmetry; apply app_nil_r|]. split; [reflexivity|].
    split; [exists []; symmetry; apply app_nil_r | reflexivity].
  - cbn [fetch_cards] in H.
    apply bind_ok_inv in H as [w1 [resp [H1 H]]]. apply lift_get_ok in H1. subst w1.
    apply bind_ok_inv in H as [w2 [d [H2 H]]]. unfold lift_res in H2.
    injection H2 as E2 Ed. subst w2.
    apply bind_ok_inv in H as [w3 [c [H3 H]]]. unfold alloc_card in H3.
    injection H3 as E3 Ec. subst w3 c.
    apply bind_ok_inv in H as [w4 [cs' [H4 H]]]. unfold ret in H. inversion H. subst.
    destruct (IH _ _ H4) as [Hl [Hp [[ext He] Hm]]]. cbn in Hl, Hp, He.
    split; [rewrite Hl, <- app_assoc; reflexivity|]. split; [exact Hp|].
    split; [eexists; rewrite He, <- app_assoc; reflexivity|].
    simpl. rewrite Hm, He. f_equal.
    apply card_ext_lookup. rewrite list_lookup_middle by reflexivity. reflexivity.
Qed.

(** [phase.cards], computed for a Phase (its slot empty): it sends
    [GET /phases/{id}/cards.json] only when the Phase's data has no
    ['cards'], then one [GET /cards/{card_id}] per listed card, in order,
    and nothing else; it returns one new Card per listed id, in order, with
    that id as [identifier], and stores the list both in [data['cards']]
    and in the slot. *)
Lemma phase_cards_ok r w w' cs po :
  w_phase_heap w !! r = Some po -> po_cards po = None ->
  phase_cards srv email token base_url r w = (w', Ok cs) ->
  exists l,
    w_log w' = w_log w ++
      match pd_cards (po_data po) with
      | Some _ => []
      | None => [get_request email token base_url (phase_cards_endpoint (pd_id (po_data po)))]
      end ++ map (fun i => get_request email token base_url (card_endpoint i)) l /\
    match pd_cards (po_data po) with Some l0 => l = l0 | None => True end /\
    map (fun c => option_map co_identifier (w_card_heap w' !! c)) cs = map Some l /\
    option_map po_cards (w_phase_heap w' !! r) = Some (Some cs) /\
    option_map (fun p => pd_cards (po_data p)) (w_phase_heap w' !! r) = Some (Some l).
Proof.
  intros Hr Hc H. unfold phase_cards in H.
  rewrite (bind_ok (read_phase r) _ w w po) in H by (unfold read_phase; rewrite Hr; reflexivity).
  rewrite Hc in H.
  apply bind_ok_inv in H as [w2 [u [H2 H]]].
  (* after the optional fetch of the card list: the phase [self'] at [r] *)
  assert (Hmid : exists self', w_phase_heap w2 !! r = Some self' /\
            w_card_heap w2 = w_card_heap w /\
            w_log w2 = w_log w ++
              match pd_cards (po_data po) with
              | Some _ => []
              | None => [get_request email token base_url
                           (phase_cards_endpoint (pd_id (po_data po)))]
              end /\
            (forall l0, pd_cards (po_data po) = Some l0 -> pd_cards (po_data self') = Some l0) /\
            po_cards self' = None /\ pd_cards (po_data self') <> None).
  { destruct (pd_cards (po_data po)) as [l0|] eqn:Ep.
    - unfold ret in H2. injection H2 as E2 _. subst w2. exists po.
      split; [exact Hr|]. split; [reflexivity|]. split; [symmetry; apply app_nil_r|].
      split; [intros l1 [= ->]; exact Ep|]. split; [exact Hc | rewrite Ep; discriminate].
    - apply bind_ok_inv in H2 as [s1 [resp [K1 H2]]]. apply lift_get_ok in K1. subst s1.
      apply bind_ok_inv in H2 as [s2 [l [K2 H2]]]. unfold lift_res in K2.
      injection K2 as E2 _. subst s2.
      apply bind_ok_inv in H2 as [s3 [self [K3 H2]]].
      apply read_phase_ok in K3 as [-> K3]. cbn in K3. rewrite Hr in K3.
      injection K3 as <-. apply write_phase_ok in H2. subst w2.
      exists (phase_set_cards_data l po). cbn.
      rewrite list_lookup_insert_eq by (eapply lookup_lt_Some; exact Hr).
      split; [reflexivity|]. split; [reflexivity|]. split; [reflexivity|].
      split; [discriminate|]. split; [exact Hc | discriminate]. }
  destruct Hmid as [self' [Hr2 [Hch2 [Hl2 [Hk2 [Hc2 Hn2]]]]]].
  apply bind_ok_inv in H as [w3 [self3 [K3 H]]].
  apply read_phase_ok in K3 as [-> K3]. rewrite Hr2 in K3. injection K3 as <-.
  destruct (pd_cards (po_data self')) as [l|] eqn:Ep'; [|congruence].
  apply bind_ok_inv in H as [w4 [stubs [K4 H]]]. unfold lift_res in K4.
  injection K4 as E4 <-. subst w4.
  apply bind_ok_inv in H as [w5 [cards [K5 H]]].
  destruct (fetch_cards_ok _ _ _ _ K5) as [Hl5 [Hp5 [[ext He5] Hm5]]].
  apply bind_ok_inv in H as [w6 [self6 [K6 H]]].
  apply read_phase_ok in K6 as [-> K6]. rewrite Hp5, Hr2 in K6. injection K6 as <-.
  apply bind_ok_inv in H as [w7 [u7 [K7 H]]]. apply write_phase_ok in K7. subst w7.
  unfold ret in H. injection H as <- <-.
  exists l. cbn. rewrite Hp5, list_lookup_insert_eq by (eapply lookup_lt_Some; exact Hr2).
  split; [rewrite Hl5, Hl2, app_assoc; reflexivity|].
  split; [destruct (pd_cards (po_data po)) as [l0|];
    [specialize (Hk2 l0 eq_refl); congruence | exact I]|].
  split; [exact Hm5|]. split; [reflexivity|]. cbn. rewrite Ep'. reflexivity.
Qed.

End PhaseCards.

Lemma phase_cards_ok_witness :
  let srv := fun rq : request =>
    if String.eqb (rq_url rq) "https://api/phases/10/cards.json"
    then mkResponse 200 (BCardList [PInt 7; PInt 8])
    else mkResponse 200 (BCard (mkCardJson (PInt 0) [] [])) in
  let w := sample_world [] [] in
  let po := mkPhaseObj (PInt 10) (mkPhaseJson (PInt 10) [] None) None in
  let w' := fst (phase_cards srv "" "" "https://api/" 0%nat w) in
  w_phase_heap w !! 0%nat = Some po /\ po_cards po = None /\
  phase_cards srv "" "" "https://api/" 0%nat w = (w', Ok [0; 1]%nat) /\
  exists l,
    w_log w' = w_log w ++
      match pd_cards (po_data po) with
      | Some _ => []
      | None => [get_request "" "" "https://api/" (phase_cards_endpoint (pd_id (po_data po)))]
      end ++ map (fun i => get_request "" "" "https://api/" (card_endpoint i)) l /\
    match pd_cards (po_data po) with Some l0 => l = l0 | None => True end /\
    map (fun c => option_map co_identifier (w_card_heap w' !! c)) [0; 1]%nat = map Some l /\
    option_map po_cards (w_phase_heap w' !! 0%nat) = Some (Some [0; 1]%nat) /\
    option_map (fun p => pd_cards (po_data p)) (w_phase_heap w' !! 0%nat) = Some (Some l).
Proof.
  intros srv w po w'.
  assert (Hp : phase_cards srv "" "" "https://api/" 0%nat w = (w', Ok [0; 1]%nat))
    by (vm_compute; reflexivity).
  split; [reflexivity|]. split; [reflexivity|]. split; [exact Hp|].
  exact (phase_cards_ok srv "" "" "https://api/" 0%nat w w' [0; 1]%nat po eq_refl eq_refl Hp).
Defined.

(** ** [pipe.cards] *)

Create HintDb frame.

Lemma frame_keep r {A} (m : ST world A) :
  (forall w, w_phase_heap (fst (m w)) = w_phase_heap w /\
             w_card_heap (fst (m w)) = w_card_heap w) -> phase_frame r m.
Proof.
  intros Hm w w' x H. pose proof (Hm w) as [E1 E2]. rewrite H in E1, E2. simpl in E1, E2.
  split; [intros; rewrite E1; reflexivity | exists []; rewrite E2, app_nil_r; reflexivity].
Qed.

Lemma frame_bind r {A B} (m : ST world A) (f : A -> ST world B) :
  phase_frame r m -> (forall a, phase_frame r (f a)) -> phase_frame r (bind m f).
Proof.
  intros Hm Hf w w' x. unfold bind. destruct (m w) as [s [a|e]] eqn:E; intros H.
  - destruct (Hm _ _ _ E) as [P1 [e1 C1]]. destruct (Hf _ _ _ _ H) as [P2 [e2 C2]].
    split; [intros r0 Hr0; rewrite P2, P1 by exact Hr0; reflexivity|].
    exists (e1 ++ e2). rewrite C2, C1, app_assoc. reflexivity.
  - inversion H. subst. eapply Hm. exact E.
Qed.

Lemma frame_ret r {A} (a : A) : phase_frame r (ret a).
Proof. apply frame_keep. split; reflexivity. Qed.

Lemma frame_lift_res r {A} (x : res A) : phase_frame r (lift_res x).
Proof. apply frame_keep. split; reflexivity. Qed.

Lemma frame_lift_log r {A} (m : ST (list request) A) : phase_frame r (lift_log m).
Proof. apply frame_keep. intros w. unfold lift_log. destruct (m (w_log w)). split; reflexivity. Qed.

Lemma frame_read_phase r r' : phase_frame r (read_phase r').
Proof.
  apply frame_keep. intros w. unfold read_phase. destruct (_ !! r'); split; reflexivity.
Qed.

Lemma frame_write_phase r po : phase_frame r (write_phase r po).
Proof.
  intros w w' x H. unfold write_phase, modify in H. inversion H. subst. cbn.
  split; [intros r0 Hr0; apply list_lookup_insert_ne; congruence|].
  exists []. rewrite app_nil_r. reflexivity.
Qed.

Lemma frame_alloc_card r co : phase_frame r (alloc_card co).
Proof.
  intros w w' x H. unfold alloc_card in H. inversion H. subst. cbn.
  split; [reflexivity | eexists; reflexivity].
Qed.

#[export] Hint Resolve frame_ret frame_lift_res frame_lift_log frame_read_phase
  frame_write_phase frame_alloc_card : frame.

Ltac frame :=
  repeat first
    [ solve [eauto with frame]
    | match goal with |- phase_frame _ (bind _ _) => apply frame_bind; [|intros ?] end
    | match goal with |- phase_frame _ (match ?x with _ => _ end) => destruct x end ].

Lemma fetch_cards_frame srv email token base_url r stubs :
  phase_frame r (fetch_cards srv email token base_url stubs).
Proof. induction stubs; simpl; frame. Qed.
#[local] Hint Resolve fetch_cards_frame : frame.

Lemma phase_cards_frame srv email token base_url r :
  phase_frame r (phase_cards srv email token base_url r).
Proof. unfold phase_cards. frame. Qed.

Lemma card_ids_ext w w' ext cs l :
  w_card_heap w' = w_card_heap w ++ ext -> card_ids w cs = map Some l ->
  card_ids w' cs = map Some l.
Proof.
  intros He. revert l. unfold card_ids. induction cs as [|c cs IH]; intros l H; [exact H|].
  destruct l as [|i l]; [discriminate|]. simpl in H |- *. injection H as H1 H2.
  rewrite (IH _ H2), He, (card_ext_lookup _ _ _ _ H1). reflexivity.
Qed.

Lemma cards_ok_frame w w' r :
  cards_ok w ->
  (forall r0, r0 <> r -> w_phase_heap w' !! r0 = w_phase_heap w !! r0) ->
  (exists ext, w_card_heap w' = w_card_heap w ++ ext) ->
  (forall po cs, w_phase_heap w' !! r = Some po -> po_cards po = Some cs ->
     exists l, pd_cards (po_data po) = Some l /\ card_ids w' cs = map Some l) ->
  cards_ok w'.
Proof.
  intros Hok Hf [ext He] Hr r0 po cs H0 Hc.
  destruct (Nat.eq_dec r0 r) as [->|Hne]; [exact (Hr _ _ H0 Hc)|].
  rewrite (Hf _ Hne) in H0. destruct (Hok _ _ _ H0 Hc) as [l [Hl Hi]].
  exists l. split; [exact Hl | exact (card_ids_ext _ _ _ _ _ He Hi)].
Qed.

Section PipeCards.
Variable srv : request -> response.
Variables (email token base_url : string) (pipe_data : pipe_json).

Lemma phase_cards_inv r w w' cs :
  cards_ok w -> phase_cards srv email token base_url r w = (w', Ok cs) ->
  cards_ok w' /\
  (exists po, w_phase_heap w' !! r = Some po /\ po_cards po = Some cs) /\
  (forall r0 po0, w_phase_heap w !! r0 = Some po0 -> po_cards po0 <> None ->
     w_phase_heap w' !! r0 = Some po0) /\
  (exists ext, w_card_heap w' = w_card_heap w ++ ext).
Proof.
  intros Hok H.
  destruct (w_phase_heap w !! r) as [po|] eqn:Hr;
    [|unfold phase_cards, bind, read_phase in H; rewrite Hr in H; discriminate].
  destruct (po_cards po) as [cs0|] eqn:Hc.
  - unfold phase_cards in H.
    rewrite (bind_ok (read_phase r) _ w w po) in H
      by (unfold read_phase; rewrite Hr; reflexivity).
    rewrite Hc in H. unfold ret in H. injection H as <- <-.
    split; [exact Hok|]. split; [exists po; auto|]. split; [auto|].
    exists []. symmetry. apply app_nil_r.
  - destruct (phase_cards_frame srv email token base_url r _ _ _ H) as [Hf He].
    destruct (phase_cards_ok srv email token base_url r w w' cs po Hr Hc H)
      as [l [_ [_ [Hi [Hpc Hpd]]]]].
    destruct (w_phase_heap w' !! r) as [po'|] eqn:Hr'; [|discriminate].
    injection Hpc as Hpc. injection Hpd as Hpd.
    split.
    { apply (cards_ok_frame w w' r Hok Hf He).
      intros po1 cs1 H1 Hc1. rewrite Hr' in H1. injection H1 as <-.
      rewrite Hpc in Hc1. injection Hc1 as <-. exists l. auto. }
    split; [exists po'; auto|]. split; [|exact He].
    intros r0 po0 H0 Hn. destruct (Nat.eq_dec r0 r) as [->|Hne].
    + rewrite Hr in H0. injection H0 as <-. contradiction.
    + rewrite (Hf _ Hne). exact H0.
Qed.

Lemma collect_cards_inv ps w w' cs :
  cards_ok w -> collect_cards srv email token base_url ps w = (w', Ok cs) ->
  cards_ok w' /\
  card_ids w' cs = concat (map (phase_card_ids w') ps) /\
  (forall r0 po0, w_phase_heap w !! r0 = Some po0 -> po_cards po0 <> None ->
     w_phase_heap w' !! r0 = Some po0) /\
  (exists ext, w_card_heap w' = w_card_heap w ++ ext).
Proof.
  revert w cs. induction ps as [|p ps IH]; intros w cs Hok H.
  - inversion H. subst. split; [exact Hok|]. split; [reflexivity|]. split; [auto|].
    exists []. symmetry. apply app_nil_r.
  - cbn [collect_cards] in H.
    apply bind_ok_inv in H as [w1 [cs1 [H1 H]]].
    apply bind_ok_inv in H as [w2 [rest [H2 H]]]. unfold ret in H. injection H as <- <-.
    destruct (phase_cards_inv _ _ _ _ Hok H1) as [Hok1 [[po1 [Hp1 Hc1]] [Hs1 [e1 He1]]]].
    destruct (IH _ _ Hok1 H2) as [Hok2 [Hi2 [Hs2 [e2 He2]]]].
    split; [exact Hok2|]. split.
    + destruct (Hok1 _ _ _ Hp1 Hc1) as [l [Hl Hi]].
      unfold card_ids at 1. rewrite map_app. fold (card_ids w2 cs1) (card_ids w2 rest).
      rewrite Hi2. cbn [map concat]. f_equal.
      unfold phase_card_ids at 1. rewrite (Hs2 _ _ Hp1) by congruence. rewrite Hl.
      exact (card_ids_ext _ _ _ _ _ He2 Hi).
    + split; [intros; apply Hs2; auto|].
      exists (e1 ++ e2). rewrite He2, He1, app_assoc. reflexivity.
Qed.

Lemma get_phases_cards_ok ids w w' rs :
  cards_ok w -> get_phases srv email token base_url ids w = (w', Ok rs) -> cards_ok w'.
Proof.
  revert w rs. induction ids as [|x ids IH]; intros w rs Hok H.
  - inversion H. subst. exact Hok.
  - cbn [get_phases] in H. apply bind_ok_inv in H as [w1 [r [H1 H]]].
    apply bind_ok_inv in H as [w2 [rs' [H2 H]]]. unfold ret in H. injection H as <- _.
    apply (IH w1 rs'); [|exact H2].
    apply get_phase_cases in H1 as [[_ ->]|[_ [l [d [_ [pd [_ [-> ->]]]]]]]];
      [exact Hok|].
    intros r0 po cs H0 Hc. cbn in H0. apply lookup_snoc_Some in H0 as [[_ H0]|[_ <-]];
      [|discriminate].
    exact (Hok _ _ _ H0 Hc).
Qed.

End PipeCards.

Lemma phases_cards_ok srv email token base_url pipe_data w w1 rs :
  cards_ok w -> phases srv email token base_url pipe_data w = (w1, Ok rs) -> cards_ok w1.
Proof.
  intros Hok H. unfold phases in H. unfold bind at 1, gets in H.
  destruct (w_phases w).
  - unfold ret in H. injection H as <- _. exact Hok.
  - apply bind_ok_inv in H as [w2 [rs2 [H2 H]]]. unfold bind, modify, ret in H.
    injection H as <- _. exact (get_phases_cards_ok _ _ _ _ _ _ _ _ Hok H2).
Qed.

(** [pipe.cards], computed from a consistent object graph (every Phase
    whose [cards] are computed holds the Cards of its [data['cards']]): it
    loads [pipe.phases] and returns, in order, the Cards of every Phase
    listed there, whose [identifier]s are the ids of each Phase's
    [data['cards']] concatenated in phase order (a Phase listed twice
    contributes its Cards twice); the graph stays consistent. *)
Theorem pipe_cards_identifiers srv email token base_url pipe_data w w' cs :
  cards_ok w -> w_cards w = None ->
  pipe_cards srv email token base_url pipe_data w = (w', Ok cs) ->
  exists w1 rs,
    phases srv email token base_url pipe_data w = (w1, Ok rs) /\
    w_cards w' = Some cs /\
    card_ids w' cs = concat (map (phase_card_ids w') rs) /\
    cards_ok w'.
Proof.
  intros Hok Hn H. unfold pipe_cards in H. unfold bind at 1, gets in H. rewrite Hn in H.
  apply bind_ok_inv in H as [w1 [rs [H1 H]]].
  apply bind_ok_inv in H as [w2 [cards [H2 H]]].
  unfold bind, modify, ret in H. injection H as <- <-.
  pose proof (phases_cards_ok _ _ _ _ _ _ _ _ Hok H1) as Hok1.
  destruct (collect_cards_inv srv email token base_url _ _ _ _ Hok1 H2)
    as [Hok2 [Hi2 _]].
  exists w1, rs. split; [exact H1|]. split; [reflexivity|]. split; [exact Hi2 | exact Hok2].
Qed.

(** Two phases [10] and [20], with the cards [7; 8] and [9] in their data. *)
Lemma pipe_cards_identifiers_witness :
  let srv := fun rq : request =>
    if String.eqb (rq_url rq) "https://api/phases/10.json"
    then mkResponse 200 (BPhase (mkPhaseJson (PInt 10) [] (Some [PInt 7; PInt 8])))
    else if String.eqb (rq_url rq) "https://api/phases/20.json"
    then mkResponse 200 (BPhase (mkPhaseJson (PInt 20) [] (Some [PInt 9])))
    else mkResponse 200 (BCard (mkCardJson (PInt 0) [] [])) in
  let w := mkWorld [] [] None None [] [] [] in
  let pd := mkPipeJson [PInt 10; PInt 20] in
  let w' := fst (pipe_cards srv "" "" "https://api/" pd w) in
  cards_ok w /\ w_cards w = None /\
  pipe_cards srv "" "" "https://api/" pd w = (w', Ok [0; 1; 2]%nat) /\
  exists w1 rs,
    phases srv "" "" "https://api/" pd w = (w1, Ok rs) /\
    w_cards w' = Some [0; 1; 2]%nat /\
    card_ids w' [0; 1; 2]%nat = concat (map (phase_card_ids w') rs) /\
    cards_ok w'.
Proof.
  intros srv w pd w'.
  assert (Hok : cards_ok w) by (intros r po cs H; discriminate).
  assert (Hp : pipe_cards srv "" "" "https://api/" pd w = (w', Ok [0; 1; 2]%nat))
    by (vm_compute; reflexivity).
  split; [exact Hok|]. split; [reflexivity|]. split; [exact Hp|].
  exact (pipe_cards_identifiers srv "" "" "https://api/" pd w w' _ Hok eq_refl Hp).
Defined.

(** ** [create_card] *)

Lemma build_field_values_values srv email token base_url pipe_data items w w' fvs :
  build_field_values srv email token base_url pipe_data items w = (w', Ok fvs) ->
  map snd fvs = map snd items.
Proof.
  revert w fvs. induction items as [|[k v] items IH]; intros w fvs H.
  - inversion H. reflexivity.
  - cbn [build_field_values] in H.
    apply bind_ok_inv in H as [w1 [fid [_ H]]].
    apply bind_ok_inv in H as [w2 [rest [H2 H]]]. unfold ret in H. injection H as <- <-.
    simpl. f_equal. exact (IH _ _ H2).
Qed.

(** [create_card(title, values)], when it returns: the POST of
    [{card: {title, field_values}}] to [/pipes/{id}/create_card.json] is the
    last request it sends, every request before it (loading the phases for
    the lookups) is a GET without a body, [field_values] carries the values
    of [values] in order, and the returned Card, appended to the heap, is
    built from the decoded response, with its ['id'] as [identifier]. *)
Theorem create_card_post_last srv email token base_url pipe_id pipe_data title values w w' r :
  create_card srv email token base_url pipe_id pipe_data title values w = (w', Ok r) ->
  exists pre fvs cd,
    w_log w' = w_log w ++ pre ++
      [mkRequest POST (get_url base_url (create_card_endpoint pipe_id)) (headers email token)
         (Some (mkPayload title fvs))] /\
    Forall (fun rq => rq_method rq = GET /\ rq_json rq = None) pre /\
    map snd fvs = map snd values /\
    json_card (srv (mkRequest POST (get_url base_url (create_card_endpoint pipe_id))
                      (headers email token) (Some (mkPayload title fvs)))) = Ok cd /\
    w_card_heap w' !! r = Some (mkCardObj (cd_id cd) cd None).
Proof.
  intros H. unfold create_card in H.
  apply bind_ok_inv in H as [w1 [fvs [H1 H]]].
  destruct (build_field_values_sends srv email token base_url pipe_data
              (fun rq => rq_method rq = GET /\ rq_json rq = None)
              (fun _ => conj eq_refl eq_refl) values _ _ _ H1) as [pre [Hl1 Hpre]].
  pose proof (build_field_values_values _ _ _ _ _ _ _ _ _ H1) as Hv.
  apply bind_ok_inv in H as [w2 [resp [H2 H]]].
  unfold lift_log in H2.
  destruct (client_post _ _ _ _ _ _ (w_log w1)) as [l2 res2] eqn:E2.
  injection H2 as <- E. subst res2.
  pose proof E2 as E2'. unfold client_post in E2'. apply http_request_log in E2'. subst l2.
  unfold client_post, http_request in E2.
  destruct (raise_for_status _); [discriminate E2|]. injection E2 as E2. subst resp.
  apply bind_ok_inv in H as [w3 [cd [H3 H]]]. unfold lift_res in H3. injection H3 as <- E3.
  unfold alloc_card in H. injection H as <- <-.
  exists pre, fvs, cd. cbn. split; [rewrite Hl1, <- app_assoc; reflexivity|].
  split; [exact Hpre|]. split; [exact Hv|]. split; [exact E3|].
  apply list_lookup_middle. reflexivity.
Qed.

Lemma create_card_post_last_witness :
  let w := sample_world [mkField (PInt 1) (PStr "A")] [] in
  let w' := fst (create_card srv_card "" "" "https://api/" (PInt 5) sample_pipe_data
                   (PStr "t") [(PStr "A", PStr "v")] w) in
  create_card srv_card "" "" "https://api/" (PInt 5) sample_pipe_data (PStr "t")
    [(PStr "A", PStr "v")] w = (w', Ok 0%nat) /\
  exists pre fvs cd,
    w_log w' = w_log w ++ pre ++
      [mkRequest POST (get_url "https://api/" (create_card_endpoint (PInt 5))) (headers "" "")
         (Some (mkPayload (PStr "t") fvs))] /\
    Forall (fun rq => rq_method rq = GET /\ rq_json rq = None) pre /\
    map snd fvs = map snd [(PStr "A", PStr "v")] /\
    json_card (srv_card (mkRequest POST (get_url "https://api/" (create_card_endpoint (PInt 5)))
                      (headers "" "") (Some (mkPayload (PStr "t") fvs)))) = Ok cd /\
    w_card_heap w' !! 0%nat = Some (mkCardObj (cd_id cd) cd None).
Proof.
  intros w w'.
  assert (Hc : create_card srv_card "" "" "https://api/" (PInt 5) sample_pipe_data (PStr "t")
                 [(PStr "A", PStr "v")] w = (w', Ok 0%nat)) by (vm_compute; reflexivity).
  split; [exact Hc|].
  exact (create_card_post_last srv_card "" "" "https://api/" (PInt 5) sample_pipe_data
           (PStr "t") [(PStr "A", PStr "v")] w w' 0%nat Hc).
Defined.

(** C5. [create_card(title, values)] looks up the id of every label of
    [values], in order, with [get_field_id_by_label].  When the lookups
    return the ids [ids] (one per pair), every request sent until then is
    a GET (loading the phases), and then exactly one POST is sent, to
    [/pipes/{pipe_id}/create_card.json] with body
    [{card: {title, field_values}}], [field_values] pairing each id with
    its value in order, whatever the server answers; when [create_card]
    returns a Card, its identifier is the ['id'] of the decoded response.
    When a lookup raises, [create_card] raises it and sends no POST. *)
Theorem create_card_request srv email token base_url pipe_id pipe_data title values w :
  let post ids := mkRequest POST (get_url base_url (create_card_endpoint pipe_id))
                    (headers email token) (Some (mkPayload title (zip ids (map snd values)))) in
  match field_ids_of srv email token base_url pipe_data (map fst values) w with
  | (w1, Ok ids) =>
      length ids = length values /\
      (exists pre, w_log w1 = w_log w ++ pre /\ Forall (fun rq => rq_method rq = GET) pre) /\
      w_log (fst (create_card srv email token base_url pipe_id pipe_data title values w)) =
        w_log w1 ++ [post ids] /\
      (forall w' r,
         create_card srv email token base_url pipe_id pipe_data title values w = (w', Ok r) ->
         exists cd, json_card (srv (post ids)) = Ok cd /\
           option_map co_identifier (w_card_heap w' !! r) = Some (cd_id cd))
  | (w1, Exc e) =>
      create_card srv email token base_url pipe_id pipe_data title values w = (w1, Exc e)
  end.
Proof.
  intros post.
  pose proof (build_field_values_ids srv email token base_url pipe_data values w) as Hb.
  destruct (field_ids_of srv email token base_url pipe_data (map fst values) w)
    as [w1 [ids|e]] eqn:Ef.
  - split; [rewrite (field_ids_of_length _ _ _ _ _ _ _ _ _ Ef), length_map; reflexivity|].
    split.
    { destruct (build_field_values_sends srv email token base_url pipe_data
                  (fun rq => rq_method rq = GET) (fun _ => eq_refl) values _ _ _ Hb)
        as [pre [Hl Hpre]].
      eauto. }
    split; [exact (create_card_log _ _ _ _ _ _ _ _ _ _ _ Hb)|].
    intros w' r Hc. destruct (create_card_ok _ _ _ _ _ _ _ _ _ _ _ _ _ Hb Hc) as [cd [Hj Hh]].
    exists cd. split; [exact Hj|]. rewrite Hh. reflexivity.
  - unfold create_card. rewrite (bind_exc _ _ _ _ _ Hb). reflexivity.
Qed.

(** The documented example: the cache resolves ["Status"] to [42]; the
    POST carries [{field_id: 42, value: "Done"}] and the Card is [99]. *)
Example create_card_request_example :
  let w := sample_world [mkField (PInt 42) (PStr "Status")]
             [(PStr "Status", PInt 42); (PInt 42, PStr "Status")] in
  let res := create_card srv_card "me@x" "tok" "https://app.pipefy.com" (PInt 5)
               sample_pipe_data (PStr "t") [(PStr "Status", PStr "Done")] w in
  w_log (fst res) =
    [mkRequest POST "https://app.pipefy.com/pipes/5/create_card.json" (headers "me@x" "tok")
       (Some (mkPayload (PStr "t") [(PInt 42, PStr "Done")]))] /\
  match snd res with
  | Ok r => option_map co_identifier (w_card_heap (fst res) !! r) = Some (PInt 99)
  | Exc _ => False
  end.
Proof. vm_compute. split; reflexivity. Qed.
